(** * Campaign report generator: routes, recipient lists and engine contracts

    A shallow embedding of the TypeScript/JavaScript sources of the
    campaign-report-generator repository:

    - the report-fetch route ([GET], [src/app/api/report/[type]/[filename]]),
    - the upload route ([POST], [/api/process]),
    - the command line driver ([scripts/processCampaigns.js], [main]),
    - the recipient-list operations of the [CampaignReportProcessor]
      component ([addEmail], [removeEmail]),

    and, for the engine components whose implementation lives outside the
    JavaScript sources (record loader, diff engine, categorizer, retention
    sweeper), a model that follows the written specification.

    JavaScript strings are modelled as [string]; one [ascii] stands for one
    code unit below 256.  Absolute, normalised paths are lists of path
    components. *)

From Stdlib Require Import ZArith Ascii List Lia Bool.
From Stdlib Require QArith.
From stdpp Require Import base tactics option list strings gmap pretty.

Local Open Scope Z_scope.

(** ** Strings as JavaScript sees them *)

Module Js.

Definition chars (s : string) : list ascii := String.list_ascii_of_string s.

Definition code (c : ascii) : N := N_of_ascii c.

(** [s.startsWith(p)] *)
Fixpoint startsWith (s p : string) : bool :=
  match p, s with
  | EmptyString, _ => true
  | String _ _, EmptyString => false
  | String a p', String b s' => if decide (a = b) then startsWith s' p' else false
  end.

(** [s.includes(sub)]: [sub] occurs at some offset of [s]. *)
Fixpoint includes (s sub : string) : bool :=
  startsWith s sub ||
  match s with
  | EmptyString => false
  | String _ s' => includes s' sub
  end.

(** [s.split(sep)] for a one-character separator: the pieces between the
    occurrences of [sep]; always at least one piece. *)
Fixpoint split_go (sep : ascii) (cur : string) (s : string) : list string :=
  match s with
  | EmptyString => [String.rev cur]
  | String c s' =>
      if decide (c = sep) then String.rev cur :: split_go sep EmptyString s'
      else split_go sep (String c cur) s'
  end.
Definition split (sep : ascii) (s : string) : list string :=
  split_go sep EmptyString s.

(** The double quote character, U+0022. *)
Definition dquote : ascii := ascii_of_N 34.

(** [\s] of a JavaScript regular expression, on code units below 256:
    TAB, LF, VT, FF, CR, space and the no-break space U+00A0. *)
Definition is_space (c : ascii) : bool :=
  let n := code c in
  ((9 <=? n) && (n <=? 13) || (n =? 32) || (n =? 160))%N.

(** [s.replace(/[^0-9]/g, "")]: the decimal digits of [s], in order. *)
Definition is_digit (c : ascii) : bool := ((48 <=? code c) && (code c <=? 57))%N.
Definition digits_only (s : string) : string :=
  String.string_of_list_ascii (filter (λ c, is_digit c = true) (chars s)).

(** Values.  Numbers are the integers (those that JavaScript prints in
    full); an object keeps its properties in insertion order. *)
Local Unset Elimination Schemes.
Inductive value :=
| VUndefined
| VNull
| VBool (b : bool)
| VNum (n : Z)
| VStr (s : string)
| VArr (elems : list value)
| VObj (props : list (string * value)).
Local Set Elimination Schemes.

(** What evaluating an expression can do: yield a value or throw an error
    whose [message] is the text carried here. *)
Inductive completion (A : Type) :=
| Ok (a : A)
| Throw (message : string).
Global Arguments Ok {A} a.
Global Arguments Throw {A} message.

Definition bind {A B} (m : completion A) (k : A → completion B) : completion B :=
  match m with
  | Ok a => k a
  | Throw e => Throw e
  end.

Fixpoint assoc (k : string) (props : list (string * value)) : option value :=
  match props with
  | [] => None
  | (k', v) :: rest => if decide (k = k') then Some v else assoc k rest
  end.

(** The message of the TypeError that reading property [k] of [undefined]
    or [null] throws. *)
Definition type_error (what k : string) : string :=
  "Cannot read properties of " +:+ what +:+ " (reading '" +:+ k +:+ "')".

(** [o.k] for a property name [k] that no primitive or array has of its
    own: reading it from [undefined] or [null] throws a TypeError, from an
    object without it or from any other value gives [undefined]. *)
Definition get (o : value) (k : string) : completion value :=
  match o with
  | VUndefined => Throw (type_error "undefined" k)
  | VNull => Throw (type_error "null" k)
  | VObj props => Ok (default VUndefined (assoc k props))
  | _ => Ok VUndefined
  end.

(** ToBoolean *)
Definition truthy (v : value) : bool :=
  match v with
  | VUndefined | VNull => false
  | VBool b => b
  | VNum n => negb (n =? 0)
  | VStr s => negb (bool_decide (s = ""))
  | VArr _ | VObj _ => true
  end.

(** ToString, as a template literal and [new Error(v)] apply it; an array
    joins its elements with commas, [undefined] and [null] elements
    giving the empty text. *)
Fixpoint to_string (v : value) : string :=
  match v with
  | VUndefined => "undefined"
  | VNull => "null"
  | VBool true => "true"
  | VBool false => "false"
  | VNum n => pretty n
  | VStr s => s
  | VArr elems =>
      (fix commas (l : list value) : string :=
         match l with
         | [] => ""
         | x :: rest =>
             let sx := match x with
                       | VUndefined | VNull => ""
                       | _ => to_string x
                       end in
             match rest with
             | [] => sx
             | _ => sx +:+ "," +:+ commas rest
             end
         end) elems
  | VObj _ => "[object Object]"
  end.

End Js.

(** ** Regular expressions

    The two regular expressions of the sources are anchored on both sides
    and built from character classes, concatenation and [+] only.  They are
    matched by Brzozowski derivatives; [lang] is the language they denote. *)

Module Regex.

Inductive regex :=
| Void                              (* matches nothing *)
| Eps                               (* the empty string *)
| Class (p : ascii → bool)          (* one code unit of a class *)
| Cat (r1 r2 : regex)
| Alt (r1 r2 : regex)
| Star (r : regex).

Definition Plus (r : regex) : regex := Cat r (Star r).
Definition Lit (c : ascii) : regex := Class (λ x, bool_decide (x = c)).

Fixpoint nullable (r : regex) : bool :=
  match r with
  | Void => false
  | Eps => true
  | Class _ => false
  | Cat r1 r2 => nullable r1 && nullable r2
  | Alt r1 r2 => nullable r1 || nullable r2
  | Star _ => true
  end.

Fixpoint deriv (c : ascii) (r : regex) : regex :=
  match r with
  | Void => Void
  | Eps => Void
  | Class p => if p c then Eps else Void
  | Cat r1 r2 =>
      if nullable r1 then Alt (Cat (deriv c r1) r2) (deriv c r2)
      else Cat (deriv c r1) r2
  | Alt r1 r2 => Alt (deriv c r1) (deriv c r2)
  | Star r1 => Cat (deriv c r1) (Star r1)
  end.

Definition matches (r : regex) (s : list ascii) : bool :=
  nullable (foldl (λ r c, deriv c r) r s).

(** [/^r$/.test(s)] *)
Definition test (r : regex) (s : string) : bool := matches r (Js.chars s).

Inductive lang : regex → list ascii → Prop :=
| lang_eps : lang Eps []
| lang_class p c : p c = true → lang (Class p) [c]
| lang_cat r1 r2 s1 s2 : lang r1 s1 → lang r2 s2 → lang (Cat r1 r2) (s1 ++ s2)
| lang_alt_l r1 r2 s : lang r1 s → lang (Alt r1 r2) s
| lang_alt_r r1 r2 s : lang r2 s → lang (Alt r1 r2) s
| lang_star_nil r : lang (Star r) []
| lang_star_cons r s1 s2 : lang r s1 → lang (Star r) s2 → lang (Star r) (s1 ++ s2).

End Regex.

(** ** Paths

    [process.cwd()] is an absolute, normalised path: the list of its
    components.  [path.join(base, rel)] appends [rel] to it and normalises:
    empty and ["."] components vanish, [".."] removes the component before
    it (and is dropped at the root). *)

Module Path.

Definition path := list string.

Definition slash : ascii := "/"%char.

Definition push (acc : path) (seg : string) : path :=
  if decide (seg = "") then acc
  else if decide (seg = ".") then acc
  else if decide (seg = "..") then removelast acc
  else acc ++ [seg].

Definition join (base : path) (rel : string) : path :=
  foldl push base (Js.split slash rel).

(** [path.join(base, rel1, rel2, ...)] *)
Definition join_all (base : path) (rels : list string) : path :=
  foldl join base rels.

(** The text of a path, as [path.join] returns it. *)
Definition render (p : path) : string :=
  match p with
  | [] => "/"
  | _ => foldr (λ seg acc, "/" +:+ seg +:+ acc) "" p
  end.

(** [p] is an entry of directory [dir], not of a directory below or above
    it: one proper component more than [dir]. *)
Definition is_entry_of (dir p : path) : bool :=
  match drop (length dir) p with
  | [name] =>
      bool_decide (take (length dir) p = dir)
      && negb (bool_decide (name = ""))
      && negb (bool_decide (name = "."))
      && negb (bool_decide (name = ".."))
      && forallb (λ c, negb (bool_decide (c = slash))) (Js.chars name)
  | _ => false
  end.

End Path.

(** ** The report-fetch route: [GET /api/report/[type]/[filename]] *)

Module ReportRoute.
Import Path.

Inductive body :=
| Json (success : bool) (message : string)    (* NextResponse.json({success, message}) *)
| Content (content : string).                 (* new NextResponse(content, ...) *)

Record response := Response
  { status : Z; payload : body; headers : list (string * string) }.

(** The outcome of one request: the response and the paths handed to
    [readFile], in order. *)
Record outcome := Outcome { resp : response; reads : list path }.

Definition json (st : Z) (msg : string) : response :=
  {| status := st; payload := Json false msg; headers := [] |}.

(** The character class [[a-zA-Z0-9_\-\.]]. *)
Definition filename_char (c : ascii) : bool :=
  let n := Js.code c in
  ((97 <=? n) && (n <=? 122) || (65 <=? n) && (n <=? 90)
   || (48 <=? n) && (n <=? 57) || (n =? 95) || (n =? 45) || (n =? 46))%N.

(** [filename.match(/^[a-zA-Z0-9_\-\.]+$/)] is not null. *)
Definition filename_re (filename : string) : bool :=
  Regex.test (Regex.Plus (Regex.Class filename_char)) filename.

Section Route.
(** [process.cwd()] and the regular files of the file system, by path;
    [readFile] fails on every other path (a directory, a missing file). *)
Variable cwd : path.
Variable fs : gmap path string.

Definition outputDir : path := join_all cwd ["data"; "output"].

(** The handler.  Its parameters are strings, so nothing in the outer
    [try] throws and the answer 500 of its [catch] is never given. *)
Definition GET (type filename : string) : outcome :=
  if negb (bool_decide (type ∈ ["md"; "txt"])) then
    Outcome (json 400 "Invalid report type") []
  else if Js.includes filename ".." || negb (filename_re filename) then
    Outcome (json 400 "Invalid filename") []
  else
    let filePath := join outputDir filename in
    match fs !! filePath with
    | Some content =>
        let contentType :=
          if bool_decide (type = "md") then "text/markdown" else "text/plain" in
        Outcome
          {| status := 200;
             payload := Content content;
             headers :=
               [("Content-Type", contentType);
                ("Content-Disposition",
                  "inline; filename=" +:+ String Js.dquote (filename +:+ String Js.dquote ""));
                ("Cache-Control", "no-cache, no-store, must-revalidate");
                ("Pragma", "no-cache");
                ("Expires", "0")] |}
          [filePath]
    | None => Outcome (json 404 "Report not found") [filePath]
    end.
End Route.

(** The headers of a response other than its Content-Type. *)
Definition without_content_type (hs : list (string * string)) : list (string * string) :=
  filter (λ h, h.1 ≠ "Content-Type") hs.

End ReportRoute.

(** ** Recipient lists of the [CampaignReportProcessor] component

    The component state that [addEmail] and [removeEmail] read and set.  One
    call of a handler sees the state of the render it was created in and its
    setters take effect together afterwards: a handler is a function from
    state to state. *)

Module Recipients.

Inductive list_type := primary | cc.

Record state := State
  { primaryEmails : list string;
    ccEmails : list string;
    emailError : string;
    newPrimaryEmail : string;
    newCCEmail : string }.

(** The class [[^\s@]]. *)
Definition address_char (c : ascii) : bool :=
  negb (Js.is_space c) && negb (bool_decide (c = "@"%char)).

(** [/^[^\s@]+@[^\s@]+\.[^\s@]+$/] *)
Definition email_re : Regex.regex :=
  Regex.Cat (Regex.Plus (Regex.Class address_char))
    (Regex.Cat (Regex.Lit "@")
       (Regex.Cat (Regex.Plus (Regex.Class address_char))
          (Regex.Cat (Regex.Lit ".") (Regex.Plus (Regex.Class address_char))))).

Definition validateEmail (email : string) : bool := Regex.test email_re email.

(** [list.includes(email)] *)
Definition includes (l : list string) (email : string) : bool :=
  bool_decide (email ∈ l).

Definition setEmailError (msg : string) (st : state) : state :=
  State (primaryEmails st) (ccEmails st) msg (newPrimaryEmail st) (newCCEmail st).

Definition addEmail (type : list_type) (email : string) (st : state) : state :=
  let cleared := setEmailError "" st in
  if bool_decide (email = "") then
    setEmailError "Please enter an email address" cleared
  else if negb (validateEmail email) then
    setEmailError "Please enter a valid email address" cleared
  else
    match type with
    | primary =>
        if includes (primaryEmails st) email || includes (ccEmails st) email then
          setEmailError "Email already exists in the lists" cleared
        else
          State (primaryEmails st ++ [email]) (ccEmails st)
                (emailError cleared) "" (newCCEmail st)
    | cc =>
        if includes (ccEmails st) email || includes (primaryEmails st) email then
          setEmailError "Email already exists in the lists" cleared
        else
          State (primaryEmails st) (ccEmails st ++ [email])
                (emailError cleared) (newPrimaryEmail st) ""
    end.

Definition removeEmail (type : list_type) (email : string) (st : state) : state :=
  match type with
  | primary =>
      State (filter (λ e, e ≠ email) (primaryEmails st)) (ccEmails st)
            (emailError st) (newPrimaryEmail st) (newCCEmail st)
  | cc =>
      State (primaryEmails st) (filter (λ e, e ≠ email) (ccEmails st))
            (emailError st) (newPrimaryEmail st) (newCCEmail st)
  end.

(** The two lists are each free of duplicates and share no address. *)
Definition lists_ok (st : state) : Prop :=
  NoDup (primaryEmails st) ∧ NoDup (ccEmails st)
  ∧ Forall (λ e, e ∉ ccEmails st) (primaryEmails st).

Global Instance lists_ok_dec st : Decision (lists_ok st).
Proof. unfold lists_ok. apply _. Defined.

End Recipients.

(** ** The upload route: [POST /api/process] *)

Module ProcessRoute.
Import Path Js.

(** A multipart form: the uploaded file (its bytes) and the two JSON texts;
    a field the form lacks reads as [null]. *)
Record form := Form
  { form_file : option string;
    form_primaryEmails : option string;
    form_ccEmails : option string }.

(** A request: what [request.formData()] gives, the form or an error when
    the body is no form. *)
Record request := Request { formData : completion form }.

Record json_response := JsonResponse { json_status : Z; json_body : value }.

(** The exit of the spawned process: its code ([null] after a signal) and
    what it wrote. *)
Record exited := Exited { code : option Z; stdout : string; stderr : string }.

(** Effects of the handler: files written so far, and a thrown error. *)
Definition M (A : Type) : Type :=
  list (path * string) → completion A * list (path * string).

Definition ret {A} (a : A) : M A := λ w, (Ok a, w).
Definition throw {A} (msg : string) : M A := λ w, (Throw msg, w).
Definition lift {A} (c : completion A) : M A := λ w, (c, w).
Definition and_then {A B} (m : M A) (k : A → M B) : M B :=
  λ w, match m w with
       | (Ok a, w') => k a w'
       | (Throw e, w') => (Throw e, w')
       end.

Global Instance M_ret : MRet M := @ret.
Global Instance M_bind : MBind M := λ A B k m, and_then m k.

Record handled := Handled { answer : json_response; writes : list (path * string) }.

(** Reading [cfg.email_config.NAME]. *)
Definition email_config_field (cfg : value) (name : string) : completion value :=
  bind (get cfg "email_config") (λ ec, get ec name).

Section Route.
(** The world of one request. *)
Variable cwd : path.                                   (* process.cwd() *)
Variable env : string → option string.                 (* process.env *)
Variable now : string.                                 (* new Date().toISOString() *)
Variable JSON_parse : string → completion value.       (* JSON.parse *)
Variable yaml_stringify : value → string.              (* yaml.stringify *)
Variable parseInt : string → value.                    (* parseInt *)
Variable write_error : path → option string.           (* why writeFile fails there *)
Variable spawn : list string → exited.                 (* the child process, run to its end *)

Definition writeFile (p : path) (data : string) : M unit :=
  λ w, match write_error p with
       | Some e => (Throw e, w)
       | None => (Ok tt, w ++ [(p, data)])
       end.

(** [formData.get(name) as string], then ToString as [JSON.parse] does. *)
Definition field_text (f : option string) : string := default "null" f.

(** [process.env.NAME] *)
Definition env_value (name : string) : value :=
  match env name with
  | Some s => VStr s
  | None => VUndefined
  end.

(** [process.env.NAME || fallback] *)
Definition env_or (name fallback : string) : string :=
  match env name with
  | Some s => if bool_decide (s = "") then fallback else s
  | None => fallback
  end.

Definition code_text (c : option Z) : string :=
  match c with
  | Some n => pretty n
  | None => "null"
  end.

Definition runPythonScript (configPath : string) : completion value :=
  let scriptPath := render (join_all cwd ["python"; "process_campaign.py"]) in
  let pythonProcess := spawn ["python"; scriptPath; "--config"; configPath] in
  if negb (bool_decide (code pythonProcess = Some 0)) then
    Throw ("Python script failed (code " +:+ code_text (code pythonProcess)
           +:+ "): " +:+ stderr pythonProcess)
  else
    match JSON_parse (stdout pythonProcess) with
    | Ok result => Ok result
    | Throw _ =>
        Ok (VObj [("stdout", VStr (stdout pythonProcess));
                  ("stderr", VStr (stderr pythonProcess))])
    end.

Definition configData (filepath outputDir : path) (primaryEmails ccEmails : value) : value :=
  VObj
    [("input_offsite_csv", VStr (render filepath));
     ("output_dir", VStr (render outputDir));
     ("email_config",
       VObj
         [("sender_email", env_value "EMAIL_SENDER");
          ("sender_password", env_value "EMAIL_SENDER_PASSWORD");
          ("smtp_server", VStr (env_or "EMAIL_SMTP_SERVER" "smtp.office365.com"));
          ("smtp_port", parseInt (env_or "EMAIL_SMTP_PORT" "587"));
          ("primary_recipients", primaryEmails);
          ("cc_recipients", ccEmails)])].

(** Where one run puts the upload and its configuration. *)
Definition upload_path : path :=
  join (join_all cwd ["data"; "uploads"])
       ("campaign_report_" +:+ digits_only now +:+ ".csv").
Definition config_path : path :=
  join (join_all cwd ["data"; "config"])
       ("config_" +:+ digits_only now +:+ ".yaml").

(** The body of the [try] block. *)
Definition POST_try (req : request) : M json_response :=
  data ← lift (formData req);
  primaryEmails ← lift (JSON_parse (field_text (form_primaryEmails data)));
  ccEmails ← lift (JSON_parse (field_text (form_ccEmails data)));
  match form_file data with
  | None =>
      ret (JsonResponse 400
             (VObj [("success", VBool false); ("message", VStr "No file uploaded")]))
  | Some bytes =>
      let uploadsDir := join_all cwd ["data"; "uploads"] in
      let configDir := join_all cwd ["data"; "config"] in
      let outputDir := join_all cwd ["data"; "output"] in
      let timestamp := digits_only now in
      let filename := "campaign_report_" +:+ timestamp +:+ ".csv" in
      let filepath := join uploadsDir filename in
      writeFile filepath bytes;;
      let cfg := configData filepath outputDir primaryEmails ccEmails in
      let configPath := join configDir ("config_" +:+ timestamp +:+ ".yaml") in
      writeFile configPath (yaml_stringify cfg);;
      result ← lift (runPythonScript (render configPath));
      success ← lift (get result "success");
      if negb (truthy success) then
        error ← lift (get result "error");
        throw (if truthy error then to_string error else "Python script failed")
      else
        ret (JsonResponse 200 (VObj [("success", VBool true); ("data", result)]))
  end.

(** The handler: the [try] block, and the [catch] that answers 500 with
    the message of the error. *)
Definition POST (req : request) : handled :=
  match POST_try req [] with
  | (Ok r, w) => Handled r w
  | (Throw msg, w) =>
      Handled (JsonResponse 500 (VObj [("success", VBool false); ("message", VStr msg)])) w
  end.
End Route.

End ProcessRoute.

(** ** The command line driver: [scripts/processCampaigns.js] *)

Module Script.
Import Path Js.

(** The configuration handed to [new CampaignProcessor(config)]. *)
Record config := Config
  { inputPath : path; historyPath : path; markdownPath : path; textPath : path }.

(** What the script does that can be seen from outside, in order. *)
Inductive event :=
| ConsoleLog (line : string)                  (* console.log(line) *)
| ConsoleError (label : string) (arg : value) (* console.error(label, arg) *)
| Exit (code : Z).                            (* process.exit(code) *)

(** How a piece of the script ends: normally with a result, with a thrown
    error, or inside [process.exit], after which nothing runs. *)
Inductive ending (A : Type) :=
| Done (a : A)
| Thrown (message : string)
| Stopped.
Global Arguments Done {A} a.
Global Arguments Thrown {A} message.
Global Arguments Stopped {A}.

(** Statements: the events so far go in, the ending and the events come out. *)
Definition Run (A : Type) : Type := list event → ending A * list event.

Definition finish {A} (a : A) : Run A := λ evs, (Done a, evs).
Definition run_then {A B} (m : Run A) (k : A → Run B) : Run B :=
  λ evs, match m evs with
         | (Done a, evs') => k a evs'
         | (Thrown e, evs') => (Thrown e, evs')
         | (Stopped, evs') => (Stopped, evs')
         end.
Global Instance Run_ret : MRet Run := @finish.
Global Instance Run_bind : MBind Run := λ A B k m, run_then m k.

Definition eval {A} (c : completion A) : Run A :=
  λ evs, match c with
         | Ok a => (Done a, evs)
         | Throw e => (Thrown e, evs)
         end.
Definition console_log (line : string) : Run unit :=
  λ evs, (Done tt, evs ++ [ConsoleLog line]).
Definition console_error (label : string) (arg : value) : Run unit :=
  λ evs, (Done tt, evs ++ [ConsoleError label arg]).
Definition process_exit (code : Z) : Run unit :=
  λ evs, (Stopped, evs ++ [Exit code]).

Section Driver.
Variable cwd : path.                                   (* process.cwd() *)
Variable now1 now2 : Z.                                (* the two readings of Date.now() *)
Variable process : config → completion value.          (* processor.process() *)

Definition main_config : config :=
  {| inputPath := join_all cwd ["data"; "uploads"; "current.csv"];
     historyPath := join_all cwd ["data"; "history"; "latest.json"];
     markdownPath := join_all cwd ["data"; "output"; "report_" +:+ pretty now1 +:+ ".md"];
     textPath := join_all cwd ["data"; "output"; "report_" +:+ pretty now2 +:+ ".txt"] |}.

Definition main_body : Run unit :=
  result ← eval (process main_config);
  success ← eval (get result "success");
  if truthy success then
    console_log "Processing completed successfully";;
    campaignCount ← eval (get result "campaignCount");
    console_log ("Processed " +:+ to_string campaignCount +:+ " campaigns");;
    changesDetected ← eval (get result "changesDetected");
    console_log ("Detected " +:+ to_string changesDetected +:+ " changes");;
    console_log "Reports generated at:";;
    reportPaths ← eval (get result "reportPaths");
    markdown ← eval (get reportPaths "markdown");
    console_log ("- Markdown: " +:+ to_string markdown);;
    reportPaths ← eval (get result "reportPaths");
    text ← eval (get reportPaths "text");
    console_log ("- Text: " +:+ to_string text)
  else
    error ← eval (get result "error");
    console_error "Processing failed:" error;;
    process_exit 1.

(** [main().catch(...)]: the whole run, as its list of events.  The
    handler shows a thrown error, here by its message, and exits. *)
Definition main : list event :=
  match main_body [] with
  | (Thrown msg, evs) => evs ++ [ConsoleError "Unexpected error:" (VStr msg); Exit 1]
  | (_, evs) => evs
  end.
End Driver.

End Script.

(** ** The engine, from its specification

    The record loader, the diff engine, the categorizer and the retention
    sweeper are not part of the JavaScript sources; the definitions of this
    module follow the wording of the specification. *)

Module Engine.
Import Path.
Import QArith_base (Q, Qmake, Qeq_bool).

(** *** Data model *)

(** Modelled from the spec: calendar dates (the engine's date type is
    missing), compared as calendar dates are. *)
Record date := Date { year : Z; month : Z; day : Z }.

(** Modelled from the spec: calendar equality of dates is decidable. *)
Global Instance date_eq_dec : EqDecision date.
Proof. solve_decision. Defined.

(** Modelled from the spec: [a] is a calendar date before [b]. *)
Definition date_ltb (a b : date) : bool :=
  (year a <? year b)
  || (year a =? year b)
     && ((month a <? month b) || (month a =? month b) && (day a <? day b)).

(** Modelled from the spec: [a] is [b] or a calendar date before it. *)
Definition date_leb (a b : date) : bool := negb (date_ltb b a).

(** Modelled from the spec: the composite identity of a campaign,
    (vendor, event_name, tactic_name, order_id). *)
Definition identity : Type := string * string * string * string.

(** Modelled from the spec: the Campaign record of the data model; a
    budget is an exact decimal, held as a rational. *)
Record Campaign := MkCampaign
  { vendor : string;
    event_name : string;
    tactic_name : string;
    order_id : string;
    start_date : date;
    end_date : date;
    retailer : string;
    brand : string;
    product : string;
    budget : Q;
    setup_checklist : gmap string bool }.

(** Modelled from the spec: the identity of a campaign. *)
Definition identity_of (c : Campaign) : identity :=
  (vendor c, event_name c, tactic_name c, order_id c).

(** Modelled from the spec: a snapshot, the timestamped ordered sequence of
    the campaigns of one run. *)
Record Snapshot := MkSnapshot { taken_at : Z; campaigns : list Campaign }.

(** *** Text *)

(** Modelled from the spec: leading whitespace removed. *)
Fixpoint drop_spaces (cs : list ascii) : list ascii :=
  match cs with
  | c :: rest => if Js.is_space c then drop_spaces rest else cs
  | [] => []
  end.

(** Modelled from the spec: surrounding whitespace removed. *)
Definition trim (s : string) : string :=
  String.string_of_list_ascii
    (rev (drop_spaces (rev (drop_spaces (Js.chars s))))).

(** Modelled from the spec: the value of a decimal digit. *)
Definition digit_value (c : ascii) : option Z :=
  if Js.is_digit c then Some (Z.of_N (Js.code c) - 48) else None.

(** Modelled from the spec: the number a non-empty run of decimal digits
    writes. *)
Definition parse_digits (cs : list ascii) : option Z :=
  match cs with
  | [] => None
  | _ => foldl (λ acc c, n ← acc; d ← digit_value c; Some (10 * n + d)) (Some 0) cs
  end.

(** *** Record Loader *)





(** Modelled from the spec: the characters before the first ["."] and those
    after it. *)
Fixpoint split_point (cs : list ascii) : list ascii * option (list ascii) :=
  match cs with
  | [] => ([], None)
  | c :: rest =>
      if bool_decide (c = "."%char) then ([], Some rest)
      else let '(whole, frac) := split_point rest in (c :: whole, frac)
  end.






(** Modelled from the spec: a RowError, the 1-based number of the row and
    the reason. *)
Record RowError := MkRowError { row_number : nat; reason : string }.

(** Modelled from the spec: equality of row errors is decidable. *)
Global Instance RowError_eq_dec : EqDecision RowError.
Proof. solve_decision. Defined.






(** *** Diff Engine *)

(** Modelled from the spec: the value of a tracked attribute. *)
Inductive field_value :=
| FDate (d : date)
| FText (s : string)
| FBudget (q : Q)
| FFlag (b : option bool).      (* a checklist flag; [None] when absent *)

(** Modelled from the spec: a field that differs, its name with the old and
    the new value. *)
Definition field_change : Type := string * (field_value * field_value).

(** Modelled from the spec: the classification of one identity. *)
Inductive ChangeRecord :=
| New
| Removed
| Changed (fields : list field_change)
| Unchanged.

(** Modelled from the spec: the entry of a field, when it differs. *)
Definition change_if (differs : bool) (name : string) (old new : field_value)
    : list field_change :=
  if differs then [(name, (old, new))] else [].

(** Modelled from the spec: text fields compare by exact equality after
    trimming surrounding whitespace. *)
Definition text_change (name : string) (old new : string) : list field_change :=
  change_if (negb (bool_decide (trim old = trim new))) name (FText old) (FText new).

(** Modelled from the spec: dates compare by calendar equality. *)
Definition date_change (name : string) (old new : date) : list field_change :=
  change_if (negb (bool_decide (old = new))) name (FDate old) (FDate new).

(** Modelled from the spec: budgets compare by exact numeric equality. *)
Definition budget_change (old new : Q) : list field_change :=
  change_if (negb (Qeq_bool old new)) "budget" (FBudget old) (FBudget new).

(** Modelled from the spec: each setup-checklist flag of either side. *)
Definition checklist_changes (old new : gmap string bool) : list field_change :=
  omap (λ flag,
          if bool_decide (old !! flag = new !! flag) then None
          else Some (flag, (FFlag (old !! flag), FFlag (new !! flag))))
       (elements (dom old ∪ dom new)).

(** Modelled from the spec: the field-by-field comparison across every
    tracked attribute. *)
Definition field_changes (old new : Campaign) : list field_change :=
  date_change "start_date" (start_date old) (start_date new)
  ++ date_change "end_date" (end_date old) (end_date new)
  ++ text_change "retailer" (retailer old) (retailer new)
  ++ text_change "brand" (brand old) (brand new)
  ++ text_change "product" (product old) (product new)
  ++ budget_change (budget old) (budget new)
  ++ checklist_changes (setup_checklist old) (setup_checklist new).

(** Modelled from the spec: any difference gives [changed] with the full
    set of differing fields, none gives [unchanged]. *)
Definition compare (old new : Campaign) : ChangeRecord :=
  match field_changes old new with
  | [] => Unchanged
  | fields => Changed fields
  end.

(** Modelled from the spec: the identity-indexed lookup of a sequence of
    campaigns. *)
Definition index (cs : list Campaign) : gmap identity Campaign :=
  list_to_map ((λ c, (identity_of c, c)) <$> cs).

(** Modelled from the spec: only in [current] is [new], only in [previous]
    is [removed], in both is compared. *)
Definition classify (cur prev : option Campaign) : option ChangeRecord :=
  match cur, prev with
  | Some _, None => Some New
  | None, Some _ => Some Removed
  | Some c, Some p => Some (compare p c)
  | None, None => None
  end.

(** Modelled from the spec: the Diff Engine, whose implementation is
    missing from the sources; [diff(current, previous)]. *)
Definition diff (current : list Campaign) (previous : option Snapshot)
    : gmap identity ChangeRecord :=
  merge classify (index current)
        (index (from_option campaigns [] previous)).

(** *** Categorizer *)

(** Modelled from the spec: [completed] iff [end_date < referenceDate]. *)
Definition is_completed (referenceDate : date) (c : Campaign) : bool :=
  date_ltb (end_date c) referenceDate.

(** Modelled from the spec: [active] iff
    [start_date ≤ referenceDate ≤ end_date]. *)
Definition is_active (referenceDate : date) (c : Campaign) : bool :=
  date_leb (start_date c) referenceDate && date_leb referenceDate (end_date c).

(** Modelled from the spec: [upcoming] iff [start_date > referenceDate]. *)
Definition is_upcoming (referenceDate : date) (c : Campaign) : bool :=
  date_ltb referenceDate (start_date c).

(** Modelled from the spec: the three buckets. *)
Record Buckets := MkBuckets
  { active : list Campaign; upcoming : list Campaign; completed : list Campaign }.

(** Modelled from the spec: the Categorizer, whose implementation is
    missing from the sources; [categorize(current, referenceDate)]. *)
Definition categorize (current : list Campaign) (referenceDate : date) : Buckets :=
  {| active := List.filter (is_active referenceDate) current;
     upcoming := List.filter (is_upcoming referenceDate) current;
     completed := List.filter (is_completed referenceDate) current |}.

(** Modelled from the spec: the calendar month a campaign starts in. *)
Definition month_of (c : Campaign) : Z * Z :=
  (year (start_date c), month (start_date c)).

(** Modelled from the spec: the upcoming bucket, grouped by the month of
    [start_date]. *)
Definition upcoming_by_month (b : Buckets) : gmap (Z * Z) (list Campaign) :=
  foldr (λ c m, <[month_of c := c :: default [] (m !! month_of c)]> m) ∅ (upcoming b).

(** *** Retention Sweeper *)

(** Modelled from the spec: a file of the output directory, with the
    modification time the file system keeps for it. *)
Record file := MkFile { content : string; mtime : Z }.

Section Sweeper.
(** Modelled from the spec: the generation time a file name embeds, in
    seconds; the specification leaves the format of the names open. *)
Variable embedded_timestamp : string → option Z.

(** Modelled from the spec: the name of [p] when it lies directly in
    [dir]. *)
Definition entry_name (dir p : path) : option string :=
  if bool_decide (take (length dir) p = dir) then
    match drop (length dir) p with
    | [name] => Some name
    | _ => None
    end
  else None.

(** Modelled from the spec: [p] is a file of [dir] generated more than
    [retentionDays] before [now]. *)
Definition expired (dir : path) (retentionDays now : Z) (p : path) : bool :=
  match entry_name dir p ≫= embedded_timestamp with
  | Some generated => generated <? now - retentionDays * 86400
  | None => false
  end.

(** Modelled from the spec: the Retention Sweeper, whose implementation is
    missing from the sources; [sweep(outputDirectory, retentionDays, now)],
    the count of files removed and the files left. *)
Definition sweep (outputDirectory : path) (retentionDays now : Z)
    (fs : gmap path file) : nat * gmap path file :=
  (size (filter (λ kv, expired outputDirectory retentionDays now kv.1 = true) fs),
   filter (λ kv, expired outputDirectory retentionDays now kv.1 = false) fs).
End Sweeper.

(** Modelled from the spec: a change of the modification time of a file;
    the sweeper is specified not to look at it. *)
Definition touch (g : Z → Z) (f : file) : file := MkFile (content f) (g (mtime f)).

(** Modelled from the spec: days from 1970-01-01 to a civil date. *)
Definition days_from_civil (y m d : Z) : Z :=
  let y' := if m <=? 2 then y - 1 else y in
  let era := y' / 400 in
  let yoe := y' - era * 400 in
  let doy := (153 * (if m <=? 2 then m + 9 else m - 3) + 2) / 5 + d - 1 in
  let doe := yoe * 365 + yoe / 4 - yoe / 100 + doy in
  era * 146097 + doe - 719468.

(** Modelled from the spec: the stamp of the report names of the README,
    [Campaign_Status_Report_YYYYMMDD_HHMMSS.md]: the fifteen characters
    before the extension. *)
Definition readme_timestamp (name : string) : option Z :=
  match snd (split_point (rev (Js.chars name))) with
  | None => None
  | Some stem_rev =>
      match rev (take 15 stem_rev) with
      | [y1; y2; y3; y4; m1; m2; d1; d2; "_"%char; h1; h2; i1; i2; s1; s2] =>
          y ← parse_digits [y1; y2; y3; y4];
          m ← parse_digits [m1; m2];
          d ← parse_digits [d1; d2];
          h ← parse_digits [h1; h2];
          i ← parse_digits [i1; i2];
          s ← parse_digits [s1; s2];
          Some (days_from_civil y m d * 86400 + h * 3600 + i * 60 + s)
      | _ => None
      end
  end.

End Engine.

(** ** Views of the component state *)

Module RecipientViews.
Import Recipients.

(** The list a handler call names by its [type] argument. *)
Definition named_list (type : list_type) (st : state) : list string :=
  match type with
  | primary => primaryEmails st
  | cc => ccEmails st
  end.

(** The list it does not name. *)
Definition other_list (type : list_type) (st : state) : list string :=
  match type with
  | primary => ccEmails st
  | cc => primaryEmails st
  end.

(** Every stored address passes [validateEmail]. *)
Definition all_valid (st : state) : Prop :=
  Forall (λ e, validateEmail e = true) (primaryEmails st)
  ∧ Forall (λ e, validateEmail e = true) (ccEmails st).

(** The three parts of an address: non-empty, without whitespace or [@]. *)
Definition address_part (s : list ascii) : Prop :=
  s ≠ [] ∧ Forall (λ c, address_char c = true) s.

End RecipientViews.

(** ** Views of the upload route *)

Module ProcessRouteViews.
Import Path Js ProcessRoute.

(** The exit of the process the handler spawns for one run. *)
Definition spawned (cwd : path) (now : string) (spawn : list string → exited) : exited :=
  spawn ["python"; render (join_all cwd ["python"; "process_campaign.py"]);
         "--config"; render (config_path cwd now)].

(** The end of the [try] block, from the result of [runPythonScript] on. *)
Definition script_answer (run : completion value) : completion json_response :=
  bind run (λ result,
  bind (get result "success") (λ success,
    if negb (truthy success) then
      bind (get result "error") (λ error,
        Throw (if truthy error then to_string error else "Python script failed"))
    else
      Ok (JsonResponse 200 (VObj [("success", VBool true); ("data", result)])))).

(** The answer of the [catch] block. *)
Definition answer_500 (msg : string) : json_response :=
  JsonResponse 500 (VObj [("success", VBool false); ("message", VStr msg)]).

End ProcessRouteViews.

(** ** Views of the driver's events *)

Module ScriptViews.
Import Script.

(** A line of [console.log]. *)
Definition is_log (e : event) : bool :=
  match e with
  | ConsoleLog _ => true
  | _ => false
  end.

(** A call of [process.exit]. *)
Definition is_exit (e : event) : bool :=
  match e with
  | Exit _ => true
  | _ => false
  end.

End ScriptViews.

(** ** The middleware *)

Module Middleware.

(** What the middleware reads of a request: the path of its URL and its
    [content-type] header, [None] when the request has none. *)
Record request := Request { pathname : string; content_type : option string }.

(** What it returns: the continuation [NextResponse.next()] with the
    headers set on it, or a response of its own, with the headers the
    code gives it. *)
Inductive result :=
| Next (headers : list (string * string))
| Respond (status : Z) (body : string) (headers : list (string * string)).

(** [headers.set(name, value)]: the value replaces one set before. *)
Definition set_header (name value : string) (hs : list (string * string))
    : list (string * string) :=
  filter (λ h, h.1 ≠ name) hs ++ [(name, value)].

(** [contentType?.includes("multipart/form-data")] is truthy. *)
Definition is_multipart (contentType : option string) : bool :=
  match contentType with
  | Some text => Js.includes text "multipart/form-data"
  | None => false
  end.

Definition middleware (request : request) : result :=
  let headers := set_header "Access-Control-Allow-Origin" "*" [] in
  let headers :=
    set_header "Access-Control-Allow-Methods" "GET, POST, PUT, DELETE, OPTIONS" headers in
  let headers :=
    set_header "Access-Control-Allow-Headers" "Content-Type, Authorization" headers in
  if Js.startsWith (pathname request) "/api/process"
     && negb (is_multipart (content_type request))
  then Respond 400 "Invalid content type" []
  else Next headers.

(** The three headers set on every continuation. *)
Definition cors_headers : list (string * string) :=
  [("Access-Control-Allow-Origin", "*");
   ("Access-Control-Allow-Methods", "GET, POST, PUT, DELETE, OPTIONS");
   ("Access-Control-Allow-Headers", "Content-Type, Authorization")].

End Middleware.

(** ** The upload page

    [handleFileChange] and [processReport] of the component
    [CampaignReportProcessor].  The two requests of [processReport] go to
    the network, which is a parameter here; a timer that aborts a request
    shows as that request rejecting with an [AbortError]. *)

Module Upload.
Import Js.

Inductive ProcessingStatus := Idle | Ready | Processing | Success | Error.

(** A [File], by what the page reads of it. *)
Record File := { name : string; size : Z }.

(** The state of the component that the two handlers set. *)
Record page := Page
  { file : option File;
    processing : bool;
    progress : Z;
    status : ProcessingStatus;
    markdownContent : string;
    error : string }.

(** What a [throw] or a rejected promise carries: an [Error] object, by
    its [name] and [message], or a value that is no [Error]. *)
Inductive thrown :=
| ErrorObject (error_name message : string)
| OtherValue.

Definition new_Error (message : string) : thrown := ErrorObject "Error" message.

(** How a promise settles. *)
Inductive outcome (A : Type) :=
| Fulfilled (a : A)
| Rejected (err : thrown).
Global Arguments Fulfilled {A} a.
Global Arguments Rejected {A} err.

(** The response to [fetch("/api/process", ...)]: only [json()] is used. *)
Record process_response := { json : outcome value }.

(** The response to the report request: [ok], [statusText] and [text()]. *)
Record report_response :=
  { ok : bool; statusText : string; text : outcome string }.

(** What the handler does that can be seen from outside the page. *)
Inductive event :=
| FetchProcess (file : File) (primaryEmails ccEmails : string)
    (* fetch("/api/process", {method: "POST", body: formData}) *)
| FetchReport (url : string)                       (* fetch(url, ...) *)
| ConsoleErrorText (label text : string)           (* console.error(label, text) *)
| ConsoleErrorThrown (label : string) (err : thrown) (* console.error(label, err) *)
| ConsoleLog (line : string).                      (* console.log(line) *)

(** Statements of the handler: the page and the events so far go in, the
    way the statement ends and the new page and events come out. *)
Definition UI (A : Type) : Type := page * list event → outcome A * (page * list event).

Definition pure {A} (a : A) : UI A := λ w, (Fulfilled a, w).
Definition throw {A} (err : thrown) : UI A := λ w, (Rejected err, w).
Definition and_next {A B} (m : UI A) (k : A → UI B) : UI B :=
  λ w, match m w with
       | (Fulfilled a, w') => k a w'
       | (Rejected err, w') => (Rejected err, w')
       end.
Global Instance UI_ret : MRet UI := @pure.
Global Instance UI_bind : MBind UI := λ A B k m, and_next m k.

(** [try { body } catch (err) { handler }] *)
Definition try_catch {A} (body : UI A) (handler : thrown → UI A) : UI A :=
  λ w, match body w with
       | (Rejected err, w') => handler err w'
       | done => done
       end.

(** [try { body } finally { cleanup }] *)
Definition try_finally {A} (body : UI A) (cleanup : UI unit) : UI A :=
  λ w, match body w with
       | (r, w') =>
           match cleanup w' with
           | (Fulfilled _, w'') => (r, w'')
           | (Rejected err, w'') => (Rejected err, w'')
           end
       end.

(** [await promise] *)
Definition await {A} (promise : outcome A) : UI A := λ w, (promise, w).

(** An expression of the [Js] fragment; what it throws is a [TypeError]. *)
Definition eval {A} (c : completion A) : UI A :=
  λ w, match c with
       | Ok a => (Fulfilled a, w)
       | Throw message => (Rejected (ErrorObject "TypeError" message), w)
       end.

Definition emit (e : event) : UI unit := λ w, (Fulfilled tt, (w.1, w.2 ++ [e])).
Definition set (f : page → page) : UI unit := λ w, (Fulfilled tt, (f w.1, w.2)).

Definition setFile (v : option File) : UI unit :=
  set (λ p, Page v (processing p) (progress p) (status p) (markdownContent p) (error p)).
Definition setProcessing (v : bool) : UI unit :=
  set (λ p, Page (file p) v (progress p) (status p) (markdownContent p) (error p)).
Definition setProgress (v : Z) : UI unit :=
  set (λ p, Page (file p) (processing p) v (status p) (markdownContent p) (error p)).
Definition setStatus (v : ProcessingStatus) : UI unit :=
  set (λ p, Page (file p) (processing p) (progress p) v (markdownContent p) (error p)).
Definition setMarkdownContent (v : string) : UI unit :=
  set (λ p, Page (file p) (processing p) (progress p) (status p) v (error p)).
Definition setError (v : string) : UI unit :=
  set (λ p, Page (file p) (processing p) (progress p) (status p) (markdownContent p) v).

(** [s.endsWith(suffix)] *)
Definition endsWith (s suffix : string) : bool :=
  bool_decide (drop (length (chars s) - length (chars suffix)) (chars s) = chars suffix).

(** [s.trim()], on code units below 256. *)
Fixpoint trimStart (cs : list ascii) : list ascii :=
  match cs with
  | c :: rest => if is_space c then trimStart rest else cs
  | [] => []
  end.
Definition trim (s : string) : string :=
  String.string_of_list_ascii (rev (trimStart (rev (trimStart (chars s))))).

(** [o?.k] *)
Definition get_optional (o : value) (k : string) : completion value :=
  match o with
  | VUndefined | VNull => Ok VUndefined
  | _ => get o k
  end.

(** [v.split("/")]: only a string has the method. *)
Definition split_slash (v : value) : completion (list string) :=
  match v with
  | VStr s => Ok (split Path.slash s)
  | _ => Throw "result.data.markdown_path.split is not a function"
  end.

(** The file input changed; [files] is [event.target.files]. *)
Definition handleFileChange (files : option (list File)) : UI unit :=
  match files ≫= head with
  | Some selectedFile =>
      if endsWith (name selectedFile) ".csv" then
        setFile (Some selectedFile);;
        setError "";;
        setStatus Ready
      else
        setError "Please select a valid CSV file";;
        setFile None;;
        setStatus Idle
  | None =>
      setError "Please select a valid CSV file";;
      setFile None;;
      setStatus Idle
  end.

(** The size above which a file is not sent. *)
Definition size_limit : Z := 50 * 1024 * 1024.

(** The message shown for what the [try] block threw. *)
Definition errorMessage (err : thrown) : string :=
  match err with
  | ErrorObject error_name message =>
      if bool_decide (error_name = "AbortError") then
        "Request timed out - please try again"
      else if includes message "Failed to fetch" then
        "Network error - please check your connection"
      else message
  | OtherValue => "An error occurred"
  end.

Section Page.
Variable JSON_stringify : list string → string.           (* JSON.stringify *)
Variable fetch_process : File → string → string → outcome process_response.
Variable fetch_report : string → outcome report_response.

(** The inner [try] with its [catch]: the report is fetched and shown. *)
Definition show_report (result : value) (filename : string) : UI unit :=
  try_catch
    (let url := "/api/report/md/" +:+ filename in
     emit (FetchReport url);;
     markdownResponse ← await (fetch_report url);
     if negb (ok markdownResponse) then
       errorText ← await (text markdownResponse);
       emit (ConsoleErrorText "Markdown fetch error:" errorText);;
       throw (new_Error ("Failed to fetch report: " +:+ statusText markdownResponse))
     else
       content ← await (text markdownResponse);
       if negb (truthy (VStr content)) || (String.length (trim content) =? 0)%nat then
         throw (new_Error "Received empty report content")
       else
         setMarkdownContent content;;
         data ← eval (get result "data");
         campaign_count ← eval (get_optional data "campaign_count");
         (if truthy campaign_count then
            emit (ConsoleLog ("Processed " +:+ to_string campaign_count +:+ " campaigns"))
          else mret tt);;
         data ← eval (get result "data");
         changes_detected ← eval (get_optional data "changes_detected");
         if truthy changes_detected then
           emit (ConsoleLog ("Detected " +:+ to_string changes_detected +:+ " changes"))
         else mret tt)
    (λ err,
       match err with
       | ErrorObject error_name _ =>
           if bool_decide (error_name = "AbortError") then
             throw (new_Error "Report fetch timed out - please try again")
           else throw err
       | OtherValue => throw err
       end).

(** The outer [try] block, for the chosen [file]. *)
Definition attempt (file : File) (primaryEmails ccEmails : list string) : UI unit :=
  setProgress 20;;
  (if bool_decide (size_limit < size file) then
     throw (new_Error "File size exceeds 50MB limit")
   else mret tt);;
  let primary := JSON_stringify primaryEmails in
  let cc := JSON_stringify ccEmails in
  setProgress 40;;
  emit (FetchProcess file primary cc);;
  response ← await (fetch_process file primary cc);
  setProgress 60;;
  result ← await (json response);
  success ← eval (get result "success");
  (if negb (truthy success) then
     message ← eval (get result "message");
     throw (new_Error (to_string (if truthy message then message
                                  else VStr "Failed to process report")))
   else mret tt);;
  setProgress 80;;
  data ← eval (get result "data");
  markdown_path ← eval (get_optional data "markdown_path");
  (if truthy markdown_path then
     pieces ← eval (split_slash markdown_path);
     let filename := default "" (last pieces) in
     if negb (truthy (VStr filename)) then
       throw (new_Error "Invalid markdown filename")
     else show_report result filename
   else throw (new_Error "No report was generated"));;
  setStatus Success;;
  setProgress 100.

(** The outer [catch] block. *)
Definition recover (err : thrown) : UI unit :=
  emit (ConsoleErrorThrown "Error processing report:" err);;
  setError (errorMessage err);;
  setStatus Error;;
  setProgress 0.

(** [processReport], with the recipient lists of the render it closes over. *)
Definition processReport (primaryEmails ccEmails : list string) : UI unit :=
  λ w,
    match file w.1 with
    | Some chosen =>
        if bool_decide (primaryEmails = []) then
          setError "Please select a file and add at least one primary email recipient" w
        else
          (setProcessing true;;
           setProgress 0;;
           setStatus Processing;;
           setMarkdownContent "";;
           try_finally
             (try_catch (attempt chosen primaryEmails ccEmails) recover)
             (setProcessing false)) w
    | None =>
        setError "Please select a file and add at least one primary email recipient" w
    end.

End Page.

(** The [disabled] attribute of the process button. *)
Definition process_disabled (p : page) (primaryEmails : list string) : bool :=
  negb (bool_decide (is_Some (file p))) || processing p
  || bool_decide (primaryEmails = []).

End Upload.

(** ** Views of the upload page *)

Module UploadViews.
Import Upload.

(** The events that are requests to the server. *)
Definition is_request (e : event) : bool :=
  match e with
  | FetchProcess _ _ _ | FetchReport _ => true
  | _ => false
  end.

Definition requests (evs : list event) : list event :=
  filter (λ e, is_request e = true) evs.

(** The events that are calls of [console.log], of [console.error]. *)
Definition is_log (e : event) : bool :=
  match e with
  | ConsoleLog _ => true
  | _ => false
  end.

Definition is_console_error (e : event) : bool :=
  match e with
  | ConsoleErrorText _ _ | ConsoleErrorThrown _ _ => true
  | _ => false
  end.

(** The page with another progress, status and report text. *)
Definition shows (progress : Z) (status : ProcessingStatus) (content : string)
    (p : page) : page :=
  Page (file p) (processing p) progress status content (error p).

(** How [fetch] hands a response of the report route to the page: [ok] for
    a status from 200 to 299, [text()] the content sent, or the text of the
    JSON sent.  The status text and the JSON text are parameters. *)
Definition as_fetched (status_text : Z → string) (json_text : bool → string → string)
    (r : ReportRoute.response) : report_response :=
  {| ok := bool_decide (200 ≤ ReportRoute.status r ≤ 299);
     statusText := status_text (ReportRoute.status r);
     text := Fulfilled match ReportRoute.payload r with
                       | ReportRoute.Content content => content
                       | ReportRoute.Json success message => json_text success message
                       end |}.

End UploadViews.

(** ** The two build scripts

    Both create the data directories and then install the Python
    dependencies; the second one installs them another way on Vercel.
    The file system is the set of the paths that exist; why a directory
    cannot be made, why a command fails and what a command does to the
    file system are parameters. *)

Module Build.
Import Path Js.

(** What a script does that can be seen from outside, in order. *)
Inductive event :=
| Mkdir (dir : path)                           (* fs.mkdirSync(dir, {recursive: true}) *)
| ConsoleLog (line : string)                   (* console.log(line) *)
| Exec (command : string)                      (* execSync(command, {stdio: "inherit"}) *)
| ConsoleError (label message : string)        (* console.error(label, error) *)
| Exit (code : Z).                             (* process.exit(code) *)

(** Statements: the paths that exist and the events so far go in; what
    the statement throws, if it does, and the new state come out. *)
Definition Step (A : Type) : Type :=
  gset path * list event → completion A * (gset path * list event).

Definition proceed {A} (a : A) : Step A := λ w, (Ok a, w).
Definition step_then {A B} (m : Step A) (k : A → Step B) : Step B :=
  λ w, match m w with
       | (Ok a, w') => k a w'
       | (Throw message, w') => (Throw message, w')
       end.
Global Instance Step_ret : MRet Step := @proceed.
Global Instance Step_bind : MBind Step := λ A B k m, step_then m k.

Definition emit (e : event) : Step unit := λ w, (Ok tt, (w.1, w.2 ++ [e])).

(** The path itself and the directories above it. *)
Fixpoint prefixes (p : path) : list path :=
  match p with
  | [] => [[]]
  | c :: rest => [] :: (cons c <$> prefixes rest)
  end.

(** [array.forEach(f)] *)
Fixpoint forEach {A} (f : A → Step unit) (l : list A) : Step unit :=
  match l with
  | [] => mret tt
  | x :: rest => f x;; forEach f rest
  end.

Section Script.
Variable cwd : path.                               (* process.cwd() *)
Variable VERCEL : option string.                   (* process.env.VERCEL *)
Variable mkdir_error : path → option string.       (* why mkdirSync fails there *)
Variable mkdir_reach : path → nat.                 (* how far down a failing one gets *)
Variable exec_error : string → option string.      (* why the command fails *)
Variable exec_effect : string → gset path → gset path.
(* what the command leaves of the file system, whether it fails or not *)

Definition dirs : list path :=
  (λ dir, join_all cwd ["data"; dir]) <$> ["uploads"; "output"; "history"; "config"].

(** [fs.mkdirSync(dir, {recursive: true})]: the directory and those above
    it are made, from the top down; when it fails, the first
    [mkdir_reach dir] of them stand. *)
Definition mkdirSync (dir : path) : Step unit :=
  λ w, match mkdir_error dir with
       | Some message =>
           (Throw message,
            (w.1 ∪ list_to_set (take (mkdir_reach dir) (prefixes dir)),
             w.2 ++ [Mkdir dir]))
       | None => (Ok tt, (w.1 ∪ list_to_set (prefixes dir), w.2 ++ [Mkdir dir]))
       end.

(** The body of [dirs.forEach]. *)
Definition ensure (dir : path) : Step unit :=
  λ w, if bool_decide (dir ∈ w.1) then (Ok tt, w) else mkdirSync dir w.

(** [execSync(command, {stdio: "inherit"})]: the command runs, changes the
    file system as it does, and throws when it fails. *)
Definition execSync (command : string) : Step unit :=
  λ w, let after := (exec_effect command w.1, w.2 ++ [Exec command]) in
       match exec_error command with
       | Some message => (Throw message, after)
       | None => (Ok tt, after)
       end.

(** [try { body } catch (error) { console.error(...); process.exit(1) }] *)
Definition guarded (body : Step unit) : Step unit :=
  λ w, match body w with
       | (Throw message, w') =>
           (Ok tt, (w'.1, w'.2 ++ [ConsoleError "Error during build:" message; Exit 1]))
       | finished => finished
       end.

(** The first build script. *)
Definition build : Step unit :=
  guarded
    (forEach ensure dirs;;
     emit (ConsoleLog "Installing Python dependencies...");;
     execSync "pip install -r requirements.txt").

(** The second build script. *)
Definition build_vercel : Step unit :=
  guarded
    (forEach ensure dirs;;
     if truthy (from_option VStr VUndefined VERCEL) then
       emit (ConsoleLog "Installing Python in Vercel environment...");;
       execSync "python3.11 -m ensurepip";;
       execSync "python3.11 -m pip install --upgrade pip";;
       execSync "python3.11 -m pip install -r requirements.txt"
     else
       emit (ConsoleLog "Installing Python dependencies...");;
       execSync "pip install -r requirements.txt").

End Script.

(** The commands run, in order. *)
Definition commands (evs : list event) : list string :=
  omap (λ e, match e with Exec command => Some command | _ => None end) evs.

(** The directories [mkdirSync] was called on, in order. *)
Definition made (evs : list event) : list path :=
  omap (λ e, match e with Mkdir dir => Some dir | _ => None end) evs.

(** The commands the second script is to run, by the environment. *)
Definition plan (VERCEL : option string) : list string :=
  if truthy (from_option VStr VUndefined VERCEL) then
    ["python3.11 -m ensurepip";
     "python3.11 -m pip install --upgrade pip";
     "python3.11 -m pip install -r requirements.txt"]
  else ["pip install -r requirements.txt"].

(** The script was ended by [process.exit]. *)
Definition exited (evs : list event) : bool :=
  existsb (λ e, match e with Exit _ => true | _ => false end) evs.

End Build.

(** ** Sample data

    The row of the README, the scenarios of the specification and small
    worlds for the two routes and the driver. *)

Module Samples.
Import Path Js.
Import QArith_base (Qmake).

(** A file system with one report and a file outside the output directory. *)
Definition served_fs : gmap path string :=
  {[ ["srv"; "data"; "output"; "report_1.md"] := "# Campaigns";
     ["srv"; "secret.txt"] := "key" ]}.

(** One primary and one cc recipient; the cc address is typed in again as a
    primary one. *)
Definition two_recipients : Recipients.state :=
  Recipients.State ["ops@example.com"] ["lead@example.com"] "" "lead@example.com" "".

(** A request with one primary recipient and no cc recipient. *)
Definition one_recipient_text : string :=
  "[" +:+ String dquote ("ops@example.com" +:+ String dquote "]").

Definition sample_parse (text : string) : completion value :=
  if bool_decide (text = one_recipient_text) then Ok (VArr [VStr "ops@example.com"])
  else if bool_decide (text = "[]") then Ok (VArr [])
  else if bool_decide (text = "null") then Ok VNull
  else Throw "SyntaxError: Unexpected token".

Definition sample_form : ProcessRoute.form :=
  ProcessRoute.Form (Some "Tactic Start Date,Tactic End Date") (Some one_recipient_text) (Some "[]").

Definition sample_request : ProcessRoute.request := ProcessRoute.Request (Ok sample_form).

Definition sample_POST : ProcessRoute.request → ProcessRoute.handled :=
  ProcessRoute.POST ["srv"] (λ _, None) "2024-01-15T10:30:00.000Z" sample_parse to_string
       (λ _, VNum 587) (λ _, None) (λ _, ProcessRoute.Exited (Some 0) "null" "").

(** A result with the field names of the specification:
    [{success, campaign_count, changes_detected, report_paths: {document, plaintext}}]. *)
Definition spec_shaped_result : value :=
  VObj [("success", VBool true);
        ("campaign_count", VNum 2);
        ("changes_detected", VNum 1);
        ("report_paths",
          VObj [("document", VStr "/srv/data/output/report_1.md");
                ("plaintext", VStr "/srv/data/output/report_1.txt")])].

(** A result with the field names the driver reads. *)
Definition driver_result : value :=
  VObj [("success", VBool true);
        ("campaignCount", VNum 2);
        ("changesDetected", VNum 1);
        ("reportPaths",
          VObj [("markdown", VStr "/srv/data/output/report_1.md");
                ("text", VStr "/srv/data/output/report_1.txt")])].

(** The two rows of the scenario of the specification. *)
Definition january : Engine.Campaign :=
  Engine.MkCampaign "VendorName" "EventName" "CampaignType" "12345-01"
    (Engine.Date 2024 1 1) (Engine.Date 2024 1 31)
    "ExampleRetailer" "BrandName" "ProductName" (Qmake 50000 1) ∅.

Definition march : Engine.Campaign :=
  Engine.MkCampaign "VendorName" "EventName" "CampaignType" "12345-02"
    (Engine.Date 2024 3 1) (Engine.Date 2024 3 31)
    "ExampleRetailer" "BrandName" "ProductName" (Qmake 20000 1) ∅.


(** A report of January and one of March in the output directory, and a
    history file below it, swept on 2024-03-01 with thirty days kept. *)
Definition output_files : gmap path Engine.file :=
  {[ ["out"; "Campaign_Status_Report_20240115_103000.md"] := Engine.MkFile "january" 1709000000;
     ["out"; "Campaign_Status_Report_20240301_103000.md"] := Engine.MkFile "march" 1600000000;
     ["out"; "campaign_history"; "campaign_history_20230115_103000.json"]
       := Engine.MkFile "history" 1600000000 ]}.

End Samples.

(** ** More sample data *)

Module MoreSamples.
Import Path Js.
Import Samples.

(** What a successful run of the script prints, and a parser that knows
    this text beside those of [sample_parse]. *)
Definition engine_output_text : string :=
  "{" +:+ String dquote ("success" +:+ String dquote ":true}").

Definition engine_parse (text : string) : completion value :=
  if bool_decide (text = engine_output_text) then Ok (VObj [("success", VBool true)])
  else sample_parse text.

(** The upload route in a world where the script succeeds. *)
Definition good_POST : ProcessRoute.request → ProcessRoute.handled :=
  ProcessRoute.POST ["srv"] (λ _, None) "2024-01-15T10:30:00.000Z" engine_parse to_string
    (λ _, VNum 587) (λ _, None) (λ _, ProcessRoute.Exited (Some 0) engine_output_text "").

(** A chosen file, the page before and after choosing it. *)
Definition campaigns_csv : Upload.File :=
  {| Upload.name := "campaigns.csv"; Upload.size := 2048 |}.

Definition fresh_page : Upload.page := Upload.Page None false 0 Upload.Idle "" "".

Definition chosen_page : Upload.page :=
  Upload.Page (Some campaigns_csv) false 0 Upload.Ready "" "".

(** [JSON.stringify] on a list of texts that need no escaping. *)
Fixpoint stringify_items (l : list string) : string :=
  match l with
  | [] => ""
  | [e] => String dquote (e +:+ String dquote "")
  | e :: rest => String dquote (e +:+ String dquote ("," +:+ stringify_items rest))
  end.
Definition stringify (l : list string) : string := "[" +:+ stringify_items l +:+ "]".

(** What the upload route answers after a successful run. *)
Definition engine_answer : value :=
  VObj [("success", VBool true);
        ("data", VObj [("markdown_path", VStr "/srv/data/output/report_1705314600000.md");
                       ("campaign_count", VNum 3);
                       ("changes_detected", VNum 0)])].

(** Servers: one that answers the upload, one whose answer never comes. *)
Definition server_answers (f : Upload.File) (primary cc : string)
    : Upload.outcome Upload.process_response :=
  Upload.Fulfilled {| Upload.json := Upload.Fulfilled engine_answer |}.

Definition server_times_out (f : Upload.File) (primary cc : string)
    : Upload.outcome Upload.process_response :=
  Upload.Rejected (Upload.ErrorObject "AbortError" "The operation was aborted.").

(** Report routes: serving, answering 404, and never answering. *)
Definition report_served (url : string) : Upload.outcome Upload.report_response :=
  Upload.Fulfilled {| Upload.ok := true; Upload.statusText := "OK";
                      Upload.text := Upload.Fulfilled "# Campaign report" |}.

Definition report_missing (url : string) : Upload.outcome Upload.report_response :=
  Upload.Fulfilled {| Upload.ok := false; Upload.statusText := "Not Found";
                      Upload.text := Upload.Fulfilled "Report file not found" |}.

Definition report_times_out (url : string) : Upload.outcome Upload.report_response :=
  Upload.Rejected (Upload.ErrorObject "AbortError" "The operation was aborted.").

(** The output directory of the report route with the report that
    [engine_answer] names, and the report route behind the network. *)
Definition report_fs : gmap path string :=
  {[ ["srv"; "data"; "output"; "report_1705314600000.md"] := "# Campaign report" ]}.

Definition report_routed (url : string) : Upload.outcome Upload.report_response :=
  Upload.Fulfilled
    (UploadViews.as_fetched (λ _, "OK") (λ _ message, message)
       (ReportRoute.resp (ReportRoute.GET ["srv"] report_fs "md" "report_1705314600000.md"))).

End MoreSamples.

(** * Properties *)

(** ** The derivative matcher decides the language of an expression *)

Module RegexFacts.
Import Regex.

Local Ltac invert H := inversion H; subst; clear H.

Lemma nullable_lang r : nullable r = true ↔ lang r [].
Proof.
  induction r as [| |p|r1 IH1 r2 IH2|r1 IH1 r2 IH2|r IH]; simpl.
  - split; [discriminate | intros H; invert H].
  - split; [constructor | done].
  - split; [discriminate | intros H; invert H].
  - rewrite andb_true_iff, IH1, IH2. split.
    + intros [H1 H2]. change (@nil ascii) with (@nil ascii ++ []). by constructor.
    + intros H. invert H.
      match goal with E : _ ++ _ = [] |- _ => apply app_eq_nil in E as [-> ->] end.
      done.
  - rewrite orb_true_iff, IH1, IH2. split.
    + intros [H|H]; [by apply lang_alt_l | by apply lang_alt_r].
    + intros H. invert H; auto.
  - split; [constructor | done].
Qed.

Lemma star_cons_inv r c s :
  lang (Star r) (c :: s) →
  ∃ s1 s2, s = s1 ++ s2 ∧ lang r (c :: s1) ∧ lang (Star r) s2.
Proof.
  intros H. remember (Star r) as r' eqn:Hr. remember (c :: s) as cs eqn:Hcs.
  induction H as [| | | | | |r0 s1 s2 H1 _ H2 IH2]; try discriminate.
  injection Hr as ->. destruct s1 as [|c1 s1]; simpl in Hcs.
  - by apply IH2.
  - simplify_eq. by exists s1, s2.
Qed.

Lemma cat_cons_inv r1 r2 c s :
  lang (Cat r1 r2) (c :: s) →
  (∃ s1 s2, s = s1 ++ s2 ∧ lang r1 (c :: s1) ∧ lang r2 s2)
  ∨ (lang r1 [] ∧ lang r2 (c :: s)).
Proof.
  intros H. invert H.
  match goal with E : ?s1 ++ ?s2 = _ :: _ |- _ => destruct s1 as [|c1 s1]; simpl in E end.
  - right. by subst.
  - left. simplify_eq. eauto.
Qed.

Lemma cat_cons r1 r2 c s1 s2 :
  lang r1 (c :: s1) → lang r2 s2 → lang (Cat r1 r2) (c :: s1 ++ s2).
Proof. intros. change (c :: s1 ++ s2) with ((c :: s1) ++ s2). by constructor. Qed.

Lemma deriv_lang r c s : lang (deriv c r) s ↔ lang r (c :: s).
Proof.
  revert s. induction r as [| |p|r1 IH1 r2 IH2|r1 IH1 r2 IH2|r IH]; intros s; simpl.
  - split; intros H; invert H.
  - split; intros H; invert H.
  - destruct (p c) eqn:Hp; split; intros H; invert H.
    + by constructor.
    + constructor.
    + congruence.
  - assert (Hcat : lang (Cat (deriv c r1) r2) s → lang (Cat r1 r2) (c :: s)).
    { intros H. invert H. apply cat_cons; [by apply IH1 | done]. }
    assert (Hinv : lang (Cat r1 r2) (c :: s) →
                   lang (Cat (deriv c r1) r2) s ∨ (lang r1 [] ∧ lang r2 (c :: s))).
    { intros [(s1 & s2 & -> & H1 & H2)|H]%cat_cons_inv; [left | by right].
      constructor; [by apply IH1 | done]. }
    destruct (nullable r1) eqn:Hn.
    + split.
      * intros H. invert H; [by apply Hcat |].
        change (c :: s) with ([] ++ c :: s).
        constructor; [by apply nullable_lang | by apply IH2].
      * intros [H|[_ H]]%Hinv; [by apply lang_alt_l | apply lang_alt_r; by apply IH2].
    + split; [done |].
      intros [H|[H _]]%Hinv; [done |].
      apply nullable_lang in H. congruence.
  - split; intros H; invert H.
    + apply lang_alt_l. by apply IH1.
    + apply lang_alt_r. by apply IH2.
    + apply lang_alt_l. by apply IH1.
    + apply lang_alt_r. by apply IH2.
  - split.
    + intros H. invert H. change (c :: s1 ++ s2) with ((c :: s1) ++ s2).
      constructor; [by apply IH | done].
    + intros (s1 & s2 & -> & H1 & H2)%star_cons_inv.
      constructor; [by apply IH | done].
Qed.

Theorem matches_lang r s : matches r s = true ↔ lang r s.
Proof.
  unfold matches. revert r. induction s as [|c s IH]; intros r; simpl.
  - apply nullable_lang.
  - rewrite IH. apply deriv_lang.
Qed.

(** [/^[class]+$/] accepts the non-empty strings over the class. *)
Lemma star_class p s : lang (Star (Class p)) s ↔ Forall (λ c, p c = true) s.
Proof.
  split.
  - intros H. remember (Star (Class p)) as r eqn:Hr.
    induction H as [| | | | | |r0 s1 s2 H1 _ H2 IH2]; try discriminate.
    + constructor.
    + injection Hr as ->. invert H1. constructor; [done | by apply IH2].
  - induction 1 as [|c s Hc _ IH]; [constructor |].
    change (c :: s) with ([c] ++ s). constructor; [by constructor | done].
Qed.

Lemma plus_class p s :
  matches (Plus (Class p)) s = true ↔ s ≠ [] ∧ Forall (λ c, p c = true) s.
Proof.
  rewrite matches_lang. unfold Plus. split.
  - intros H. invert H.
    match goal with H1 : lang (Class _) _ |- _ => invert H1 end.
    match goal with H2 : lang (Star _) _ |- _ => apply star_class in H2 end.
    split; [done | by constructor].
  - intros [Hne Hall]. destruct Hall as [|c s Hc Hall]; [done |].
    change (c :: s) with ([c] ++ s).
    constructor; [by constructor | by apply star_class].
Qed.

End RegexFacts.

(** ** Strings and paths *)

Module PathFacts.
Import Path.

Lemma rev_app_rev_app s a b :
  String.rev_app (String.rev_app s a) b = String.rev_app a (s +:+ b).
Proof.
  revert a b. induction s as [|c s IH]; intros a b; [reflexivity |].
  change (String.rev_app (String.rev_app s (String c a)) b
          = String.rev_app (String c a) (s +:+ b)).
  apply IH.
Qed.

Lemma append_empty_r s : s +:+ "" = s.
Proof.
  induction s as [|c s IH]; [reflexivity |].
  change (String c (s +:+ "") = String c s). by f_equal.
Qed.

Lemma rev_involutive s : String.rev (String.rev s) = s.
Proof. unfold String.rev. rewrite rev_app_rev_app. apply append_empty_r. Qed.

Lemma split_go_no_sep sep cur s :
  sep ∉ Js.chars s →
  Js.split_go sep cur s = [String.rev (String.rev_app s cur)].
Proof.
  revert cur. induction s as [|c s IH]; intros cur Hsep; simpl; [done |].
  unfold Js.chars in Hsep. simpl in Hsep. apply not_elem_of_cons in Hsep as [Hc Hs].
  destruct (decide (c = sep)) as [->|_]; [done |]. by apply IH.
Qed.

(** A string without the separator is its own single piece. *)
Lemma split_no_sep sep s : sep ∉ Js.chars s → Js.split sep s = [s].
Proof.
  intros H. unfold Js.split. rewrite split_go_no_sep by done.
  f_equal. apply rev_involutive.
Qed.

(** Joining one proper component appends it. *)
Lemma join_component base name :
  slash ∉ Js.chars name → name ≠ "" → name ≠ "." → name ≠ ".." →
  join base name = base ++ [name].
Proof.
  intros Hsep H1 H2 H3. unfold join. rewrite split_no_sep by done.
  simpl. unfold push. by repeat case_decide.
Qed.

Lemma join_dot base : join base "." = base.
Proof. reflexivity. Qed.

Lemma is_entry_of_app dir name :
  slash ∉ Js.chars name → name ≠ "" → name ≠ "." → name ≠ ".." →
  is_entry_of dir (dir ++ [name]) = true.
Proof.
  intros Hsep H1 H2 H3. unfold is_entry_of.
  rewrite drop_app_length, take_app_length.
  rewrite bool_decide_eq_true_2 by done.
  rewrite !bool_decide_eq_false_2 by done. simpl.
  apply forallb_forall. intros c Hc%list_elem_of_In.
  apply negb_true_iff, bool_decide_eq_false. by intros ->.
Qed.

End PathFacts.

(** ** The report-fetch route *)

Module ReportRouteFacts.
Import Path ReportRoute PathFacts.
Import Samples.

(** What the filename check lets through. *)
Lemma filename_re_chars filename :
  filename_re filename = true →
  filename ≠ "" ∧ Forall (λ c, filename_char c = true) (Js.chars filename).
Proof.
  unfold filename_re, Regex.test. intros [Hne Hall]%RegexFacts.plus_class.
  split; [by intros -> | done].
Qed.

Lemma accepted_is_component filename :
  Js.includes filename ".." = false → filename_re filename = true →
  (slash ∉ Js.chars filename) ∧ filename ≠ "" ∧ filename ≠ "..".
Proof.
  intros Hdots [Hne Hall]%filename_re_chars. split_and!; [| done | by intros ->].
  intros Hin. rewrite Forall_forall in Hall. by apply Hall in Hin.
Qed.

(** The path the route reads for a filename it accepts. *)
Lemma accepted_path base filename :
  Js.includes filename ".." = false → filename_re filename = true →
  (filename = "." ∧ join base filename = base)
  ∨ (filename ≠ "." ∧ join base filename = base ++ [filename]
     ∧ is_entry_of base (base ++ [filename]) = true).
Proof.
  intros Hdots Hre. destruct (accepted_is_component _ Hdots Hre) as (Hsep & Hne & Hdd).
  destruct (decide (filename = ".")) as [->|Hd]; [by left | right].
  split_and!; [done | by apply join_component | by apply is_entry_of_app].
Qed.

Lemma reads_accepted cwd fs type filename p :
  p ∈ reads (GET cwd fs type filename) →
  Js.includes filename ".." = false ∧ filename_re filename = true
  ∧ p = join (outputDir cwd) filename.
Proof.
  unfold GET. destruct (negb (bool_decide (type ∈ ["md"; "txt"]))); simpl; [by intros ?%elem_of_nil |].
  destruct (Js.includes filename "..") eqn:Hdots; simpl; [by intros ?%elem_of_nil |].
  destruct (filename_re filename) eqn:Hre; simpl; [| by intros ?%elem_of_nil].
  destruct (fs !! join (outputDir cwd) filename); simpl; by intros ->%list_elem_of_singleton.
Qed.

(** C8.  A filename that contains [..] or a character outside
    [[a-zA-Z0-9_\-.]] is answered with status 400 and no file is read.
    Consequently, where [data/output] is a directory (reading it as a file
    fails), every file the route reads is an entry of that directory: its
    path is the directory's path followed by the filename alone. *)
Theorem get_rejects_traversal cwd fs type filename :
  ((Js.includes filename ".." = true
    ∨ ∃ c, c ∈ Js.chars filename ∧ filename_char c = false) →
   status (resp (GET cwd fs type filename)) = 400
   ∧ reads (GET cwd fs type filename) = [])
  ∧ (fs !! outputDir cwd = None →
     ∀ p content,
       p ∈ reads (GET cwd fs type filename) → fs !! p = Some content →
       p = outputDir cwd ++ [filename] ∧ is_entry_of (outputDir cwd) p = true).
Proof.
  split.
  - intros Hbad. unfold GET.
    destruct (negb (bool_decide (type ∈ ["md"; "txt"]))); [done |].
    assert (Js.includes filename ".." || negb (filename_re filename) = true) as ->; [| done].
    destruct Hbad as [-> | (c & Hin & Hc)]; [done |].
    apply orb_true_iff. right. apply negb_true_iff.
    destruct (filename_re filename) eqn:Hre; [| done].
    apply filename_re_chars in Hre as [_ Hall]. rewrite Forall_forall in Hall.
    apply Hall in Hin. congruence.
  - intros Hdir p content (Hdots & Hre & ->)%reads_accepted Hfile.
    destruct (accepted_path (outputDir cwd) filename Hdots Hre)
      as [[_ Heq] | (_ & Heq & Hentry)]; rewrite Heq in *.
    + exfalso. cut (Some content = (None : option string)); [done |].
      etrans; [symmetry; exact Hfile | exact Hdir].
    + done.
Qed.

Lemma get_rejects_traversal_witness :
  (status (resp (GET ["srv"] served_fs "md" "../secret.txt")) = 400
   ∧ reads (GET ["srv"] served_fs "md" "../secret.txt") = [])
  ∧ (["srv"; "data"; "output"; "report_1.md"] = outputDir ["srv"] ++ ["report_1.md"]
     ∧ is_entry_of (outputDir ["srv"]) ["srv"; "data"; "output"; "report_1.md"] = true).
Proof.
  split.
  - apply (get_rejects_traversal ["srv"] served_fs "md" "../secret.txt").
    left. reflexivity.
  - apply (get_rejects_traversal ["srv"] served_fs "md" "report_1.md")
      with (content := "# Campaigns").
    + reflexivity.
    + vm_compute. left.
    + reflexivity.
Defined.

(** C9.  The [type] parameter, [md] or [txt], decides the Content-Type
    header and nothing else: the two requests for one filename read the
    same paths and answer with the same status, the same body and, the
    Content-Type apart, the same headers; a served file goes out as
    [text/markdown] under [md] and as [text/plain] under [txt]. *)
Theorem type_only_sets_content_type cwd fs filename :
  let md := GET cwd fs "md" filename in
  let txt := GET cwd fs "txt" filename in
  reads md = reads txt
  ∧ status (resp md) = status (resp txt)
  ∧ payload (resp md) = payload (resp txt)
  ∧ without_content_type (headers (resp md)) = without_content_type (headers (resp txt))
  ∧ ∀ content, payload (resp md) = Content content →
      fs !! join (outputDir cwd) filename = Some content
      ∧ headers (resp md) !! 0%nat = Some ("Content-Type", "text/markdown")
      ∧ headers (resp txt) !! 0%nat = Some ("Content-Type", "text/plain").
Proof.
  unfold GET.
  change (negb (bool_decide ("md" ∈ ["md"; "txt"]))) with false.
  change (negb (bool_decide ("txt" ∈ ["md"; "txt"]))) with false.
  change (bool_decide ("md" = "md")) with true.
  change (bool_decide ("txt" = "md")) with false.
  cbv zeta. cbv iota.
  destruct (Js.includes filename ".." || negb (filename_re filename)).
  { simpl. split_and!; try done. }
  destruct (fs !! join (outputDir cwd) filename) as [content|] eqn:Hfile; simpl.
  - split_and!; try done. by intros ? [= ->].
  - split_and!; try done.
Qed.

Lemma type_only_sets_content_type_witness :
  payload (resp (GET ["srv"] served_fs "txt" "report_1.md")) = Content "# Campaigns"
  ∧ headers (resp (GET ["srv"] served_fs "md" "report_1.md")) !! 0%nat
    = Some ("Content-Type", "text/markdown")
  ∧ headers (resp (GET ["srv"] served_fs "txt" "report_1.md")) !! 0%nat
    = Some ("Content-Type", "text/plain").
Proof.
  destruct (type_only_sets_content_type ["srv"] served_fs "report_1.md")
    as (_ & _ & Hbody & _ & Hserved).
  split; [by rewrite <- Hbody |].
  apply (Hserved "# Campaigns"). reflexivity.
Defined.

End ReportRouteFacts.

(** ** Recipient lists *)

Module RecipientsFacts.
Import Recipients.
Import Samples.

Lemma lists_ok_disjoint st e :
  lists_ok st → e ∈ primaryEmails st → e ∉ ccEmails st.
Proof. intros (_ & _ & Hd). rewrite Forall_forall in Hd. apply Hd. Qed.

Lemma NoDup_snoc (l : list string) e : NoDup l → e ∉ l → NoDup (l ++ [e]).
Proof.
  intros Hl He. apply NoDup_app. split_and!; [done | | apply NoDup_singleton].
  intros x Hx ->%list_elem_of_singleton. done.
Qed.

(** An address that either list holds is refused: whatever its form, the
    handler only sets the error message. *)
Lemma addEmail_refuses type email st :
  email ∈ primaryEmails st ∨ email ∈ ccEmails st →
  ∃ msg, msg ≠ "" ∧ addEmail type email st = setEmailError msg st.
Proof.
  intros Hin. unfold addEmail.
  case_bool_decide; [by exists "Please enter an email address" |].
  destruct (validateEmail email); simpl; [| by exists "Please enter a valid email address"].
  assert (includes (primaryEmails st) email || includes (ccEmails st) email = true) as Hp.
  { unfold includes. apply orb_true_iff.
    destruct Hin; [left | right]; by apply bool_decide_eq_true. }
  destruct type.
  - rewrite Hp. by exists "Email already exists in the lists".
  - rewrite orb_comm, Hp. by exists "Email already exists in the lists".
Qed.

Lemma addEmail_ok type email st : lists_ok st → lists_ok (addEmail type email st).
Proof.
  intros (Hp & Hc & Hd). unfold addEmail.
  case_bool_decide; [done |].
  destruct (validateEmail email); simpl; [| done].
  unfold includes. destruct type.
  - destruct (bool_decide (email ∈ primaryEmails st)) eqn:H1; simpl; [done |].
    destruct (bool_decide (email ∈ ccEmails st)) eqn:H2; simpl; [done |].
    apply bool_decide_eq_false in H1, H2.
    split_and!; simpl; [by apply NoDup_snoc | done |].
    apply Forall_app. split; [done | by apply Forall_singleton].
  - destruct (bool_decide (email ∈ ccEmails st)) eqn:H2; simpl; [done |].
    destruct (bool_decide (email ∈ primaryEmails st)) eqn:H1; simpl; [done |].
    apply bool_decide_eq_false in H1, H2.
    split_and!; simpl; [done | by apply NoDup_snoc |].
    rewrite Forall_forall in Hd. apply Forall_forall. intros x Hx.
    rewrite elem_of_app, list_elem_of_singleton.
    intros [Hxc | ->]; [by apply (Hd x) | done].
Qed.

Lemma removeEmail_ok type email st : lists_ok st → lists_ok (removeEmail type email st).
Proof.
  intros (Hp & Hc & Hd). destruct type; split_and!; simpl; try done.
  - by apply NoDup_filter.
  - rewrite Forall_forall in Hd. apply Forall_forall.
    intros x [_ Hx]%list_elem_of_filter. by apply Hd.
  - by apply NoDup_filter.
  - rewrite Forall_forall in Hd. apply Forall_forall.
    intros x Hx [_ Hxc]%list_elem_of_filter. by apply (Hd x).
Qed.

(** C10.  [addEmail] and [removeEmail] keep the primary and the cc list
    disjoint and each free of duplicates.  [addEmail] refuses an address
    either list already has: it sets an error message and leaves the rest
    of the state as it was.  [removeEmail] deletes the address from the
    list it names and leaves the other list as it was. *)
Theorem recipient_lists_stay_disjoint type email st :
  lists_ok st →
  lists_ok (addEmail type email st)
  ∧ lists_ok (removeEmail type email st)
  ∧ (email ∈ primaryEmails st ∨ email ∈ ccEmails st →
     ∃ msg, msg ≠ "" ∧ addEmail type email st = setEmailError msg st)
  ∧ removeEmail primary email st =
      State (filter (λ e, e ≠ email) (primaryEmails st)) (ccEmails st)
            (emailError st) (newPrimaryEmail st) (newCCEmail st)
  ∧ removeEmail cc email st =
      State (primaryEmails st) (filter (λ e, e ≠ email) (ccEmails st))
            (emailError st) (newPrimaryEmail st) (newCCEmail st).
Proof.
  intros Hok. split_and!.
  - by apply addEmail_ok.
  - by apply removeEmail_ok.
  - apply addEmail_refuses.
  - reflexivity.
  - reflexivity.
Qed.

Lemma recipient_lists_stay_disjoint_witness :
  lists_ok two_recipients
  ∧ lists_ok (addEmail primary "lead@example.com" two_recipients)
  ∧ addEmail primary "lead@example.com" two_recipients
    = setEmailError "Email already exists in the lists" two_recipients.
Proof.
  assert (Hok : lists_ok two_recipients) by (apply (bool_decide_unpack _); vm_compute; exact I).
  split; [exact Hok |].
  destruct (recipient_lists_stay_disjoint primary "lead@example.com" two_recipients Hok)
    as (Hadd & _).
  split; [exact Hadd | reflexivity].
Defined.

End RecipientsFacts.

(** ** The upload route *)

Module ProcessRouteFacts.
Import Path Js ProcessRoute.
Import Samples.

Section Route.
Variable cwd : path.
Variable env : string → option string.
Variable now : string.
Variable JSON_parse : string → completion value.
Variable yaml_stringify : value → string.
Variable parseInt : string → value.
Variable write_error : path → option string.
Variable spawn : list string → exited.

Local Abbreviation POST := (POST cwd env now JSON_parse yaml_stringify parseInt write_error spawn).
Local Abbreviation configData := (configData env parseInt).

Lemma configData_recipients filepath outputDir primaryEmails ccEmails :
  email_config_field (configData filepath outputDir primaryEmails ccEmails)
    "primary_recipients" = Ok primaryEmails
  ∧ email_config_field (configData filepath outputDir primaryEmails ccEmails)
      "cc_recipients" = Ok ccEmails.
Proof. split; reflexivity. Qed.

(** C2.  For an upload request that carries a file and the two recipient
    lists, the configuration written for the run holds the two lists as
    they were received: [email_config.primary_recipients] and
    [email_config.cc_recipients] are what [JSON.parse] gives for the texts
    of the form fields [primaryEmails] and [ccEmails], with no address
    reordered, dropped or altered.  That configuration is the one handed
    on: the handler depends on the process table only at the command line
    [python <script> --config <the configuration path written>], and it
    does depend on it, since a failing exit of that process is answered
    with its code and its stderr. *)
Theorem recipients_pass_through req data bytes primaryText ccText primaryEmails ccEmails :
  formData req = Ok data →
  form_file data = Some bytes →
  form_primaryEmails data = Some primaryText →
  form_ccEmails data = Some ccText →
  JSON_parse primaryText = Ok primaryEmails →
  JSON_parse ccText = Ok ccEmails →
  write_error (upload_path cwd now) = None →
  write_error (config_path cwd now) = None →
  let cfg := configData (upload_path cwd now) (join_all cwd ["data"; "output"])
               primaryEmails ccEmails in
  let command := ["python"; render (join_all cwd ["python"; "process_campaign.py"]);
                  "--config"; render (config_path cwd now)] in
  writes (POST req)
    = [(upload_path cwd now, bytes); (config_path cwd now, yaml_stringify cfg)]
  ∧ email_config_field cfg "primary_recipients" = Ok primaryEmails
  ∧ email_config_field cfg "cc_recipients" = Ok ccEmails
  ∧ (∀ spawn',
       spawn' command = spawn command →
       ProcessRoute.POST cwd env now JSON_parse yaml_stringify parseInt write_error spawn' req
       = POST req)
  ∧ (code (spawn command) ≠ Some 0 →
     answer (POST req)
     = JsonResponse 500
         (VObj [("success", VBool false);
                ("message",
                  VStr ("Python script failed (code " +:+ code_text (code (spawn command))
                        +:+ "): " +:+ stderr (spawn command)))])).
Proof.
  intros Hform Hfile Hpt Hct Hp Hc Hw1 Hw2 cfg command.
  assert (∀ run,
            ProcessRoute.POST cwd env now JSON_parse yaml_stringify parseInt write_error run req
            = let w := [(upload_path cwd now, bytes);
                        (config_path cwd now, yaml_stringify cfg)] in
              match bind (runPythonScript cwd JSON_parse run (render (config_path cwd now)))
                      (λ result,
                         bind (get result "success") (λ success,
                           if negb (truthy success) then
                             bind (get result "error") (λ error,
                               Throw (if truthy error then to_string error
                                      else "Python script failed"))
                           else
                             Ok (JsonResponse 200
                                   (VObj [("success", VBool true); ("data", result)]))))
              with
              | Ok r => Handled r w
              | Throw msg =>
                  Handled (JsonResponse 500
                             (VObj [("success", VBool false); ("message", VStr msg)])) w
              end) as Hrun.
  { intros run.
    unfold ProcessRoute.POST, POST_try, mbind, M_bind, and_then, lift, writeFile.
    rewrite Hform, Hpt, Hct.
    change (field_text (Some primaryText)) with primaryText.
    change (field_text (Some ccText)) with ccText.
    rewrite Hp, Hc, Hfile.
    fold (upload_path cwd now). fold (config_path cwd now).
    rewrite Hw1, Hw2. simpl.
    destruct (runPythonScript cwd JSON_parse run (render (config_path cwd now)))
      as [result|msg]; simpl; [| done].
    destruct (get result "success") as [success|msg]; simpl; [| done].
    destruct (truthy success); simpl; [done |].
    destruct (get result "error") as [error|msg]; simpl; done. }
  split_and!.
  - rewrite Hrun. simpl. by case_match.
  - apply configData_recipients.
  - apply configData_recipients.
  - intros spawn' Hsame. rewrite !Hrun. unfold runPythonScript.
    fold command. by rewrite Hsame.
  - intros Hcode. rewrite Hrun. unfold runPythonScript. fold command.
    rewrite bool_decide_false by done. done.
Qed.
End Route.

Lemma recipients_pass_through_witness :
  ∃ cfg,
    writes (sample_POST sample_request)
      = [(["srv"; "data"; "uploads"; "campaign_report_20240115103000000.csv"],
          "Tactic Start Date,Tactic End Date");
         (["srv"; "data"; "config"; "config_20240115103000000.yaml"], to_string cfg)]
    ∧ email_config_field cfg "primary_recipients" = Ok (VArr [VStr "ops@example.com"])
    ∧ email_config_field cfg "cc_recipients" = Ok (VArr []).
Proof.
  destruct (recipients_pass_through ["srv"] (λ _, None) "2024-01-15T10:30:00.000Z"
              sample_parse to_string (λ _, VNum 587) (λ _, None)
              (λ _, Exited (Some 0) "null" "") sample_request sample_form
              "Tactic Start Date,Tactic End Date" one_recipient_text "[]"
              (VArr [VStr "ops@example.com"]) (VArr [])
              eq_refl eq_refl eq_refl eq_refl eq_refl eq_refl eq_refl eq_refl)
    as (Hwrites & Hprimary & Hcc & _).
  eexists. split_and!; [exact Hwrites | exact Hprimary | exact Hcc].
Defined.

End ProcessRouteFacts.

(** ** The command line driver *)

Module ScriptFacts.
Import Path Js Script.
Import Samples.

(** C1, as stated, fails: from a result that carries the field names
    [campaign_count], [changes_detected] and [report_paths.document /
    plaintext], the driver reads none of them; it prints [undefined] for
    the two counts, fails on the report paths and exits with code 1. *)
Lemma main_misses_spec_names :
  main ["srv"] 1 1 (λ _, Ok spec_shaped_result)
  = [ConsoleLog "Processing completed successfully";
     ConsoleLog "Processed undefined campaigns";
     ConsoleLog "Detected undefined changes";
     ConsoleLog "Reports generated at:";
     ConsoleError "Unexpected error:"
     (VStr "Cannot read properties of undefined (reading 'markdown')");
     Exit 1].
Proof. reflexivity. Qed.

(** C1, amended.  The result the driver reads is a record
    [{success, campaignCount, changesDetected, reportPaths: {markdown, text}, error}]:
    when [success] holds, the run logs [campaignCount], [changesDetected],
    [reportPaths.markdown] and [reportPaths.text], read under these names,
    and ends normally; when it does not, the run shows [error] and exits
    with code 1. *)
Theorem main_reads_result cwd now1 now2 process result success :
  process (main_config cwd now1 now2) = Ok result →
  get result "success" = Ok success →
  (truthy success = true →
   ∀ campaignCount changesDetected reportPaths markdown text,
     get result "campaignCount" = Ok campaignCount →
     get result "changesDetected" = Ok changesDetected →
     get result "reportPaths" = Ok reportPaths →
     get reportPaths "markdown" = Ok markdown →
     get reportPaths "text" = Ok text →
     main cwd now1 now2 process
     = [ConsoleLog "Processing completed successfully";
        ConsoleLog ("Processed " +:+ to_string campaignCount +:+ " campaigns");
        ConsoleLog ("Detected " +:+ to_string changesDetected +:+ " changes");
        ConsoleLog "Reports generated at:";
        ConsoleLog ("- Markdown: " +:+ to_string markdown);
        ConsoleLog ("- Text: " +:+ to_string text)])
  ∧ (truthy success = false →
     ∀ error, get result "error" = Ok error →
       main cwd now1 now2 process = [ConsoleError "Processing failed:" error; Exit 1]).
Proof.
  intros Hrun Hs. split.
  - intros Ht cc cd rp md txt Hcc Hcd Hrp Hmd Htxt.
    unfold main, main_body, mbind, Run_bind, run_then, eval.
    rewrite Hrun, Hs, Ht. unfold console_log.
    rewrite Hcc, Hcd, Hrp, Hmd, Htxt. reflexivity.
  - intros Ht err Herr.
    unfold main, main_body, mbind, Run_bind, run_then, eval.
    rewrite Hrun, Hs, Ht, Herr. reflexivity.
Qed.

Lemma main_reads_result_witness :
  main ["srv"] 1 1 (λ _, Ok driver_result)
  = [ConsoleLog "Processing completed successfully";
     ConsoleLog "Processed 2 campaigns";
     ConsoleLog "Detected 1 changes";
     ConsoleLog "Reports generated at:";
     ConsoleLog "- Markdown: /srv/data/output/report_1.md";
     ConsoleLog "- Text: /srv/data/output/report_1.txt"].
Proof.
  destruct (main_reads_result ["srv"] 1 1 (λ _, Ok driver_result) driver_result
              (VBool true) eq_refl eq_refl) as [Hok _].
  exact (Hok eq_refl (VNum 2) (VNum 1)
           (VObj [("markdown", VStr "/srv/data/output/report_1.md");
                  ("text", VStr "/srv/data/output/report_1.txt")])
           (VStr "/srv/data/output/report_1.md")
           (VStr "/srv/data/output/report_1.txt")
           eq_refl eq_refl eq_refl eq_refl eq_refl).
Defined.

End ScriptFacts.

(** ** The engine: dates and the categorizer *)

Module CategorizerFacts.
Import Path Engine.
Import Samples.
Import QArith_base (Q, Qmake, Qeq_bool).

(** *** Dates *)

Lemma date_ltb_lt a b :
  date_ltb a b = true ↔
  year a < year b
  ∨ (year a = year b
     ∧ (month a < month b ∨ (month a = month b ∧ day a < day b))).
Proof.
  unfold date_ltb.
  rewrite !orb_true_iff, !andb_true_iff, !orb_true_iff, !andb_true_iff.
  rewrite !Z.ltb_lt, !Z.eqb_eq. tauto.
Qed.

Lemma date_ltb_irrefl a : date_ltb a a = false.
Proof. apply not_true_iff_false. rewrite date_ltb_lt. lia. Qed.

Lemma date_ltb_trans a b c :
  date_ltb a b = true → date_ltb b c = true → date_ltb a c = true.
Proof. rewrite !date_ltb_lt. lia. Qed.

Lemma date_trichotomy a b :
  date_ltb a b = true ∨ a = b ∨ date_ltb b a = true.
Proof.
  rewrite !date_ltb_lt. destruct a as [ya ma da], b as [yb mb db]; simpl.
  destruct (Z.lt_trichotomy ya yb) as [?|[->|?]]; [lia | | lia].
  destruct (Z.lt_trichotomy ma mb) as [?|[->|?]]; [lia | | lia].
  destruct (Z.lt_trichotomy da db) as [?|[->|?]]; [lia | | lia].
  right. by left.
Qed.

(** *** Categorizer *)

Lemma elem_of_bucket (f : Campaign → bool) current c :
  c ∈ List.filter f current ↔ c ∈ current ∧ f c = true.
Proof. rewrite !list_elem_of_In. apply filter_In. Qed.

(** With [start_date ≤ end_date], exactly one of the three rules holds. *)
Lemma one_status referenceDate c :
  date_leb (start_date c) (end_date c) = true →
  (is_active referenceDate c = true ∧ is_upcoming referenceDate c = false
   ∧ is_completed referenceDate c = false)
  ∨ (is_active referenceDate c = false ∧ is_upcoming referenceDate c = true
     ∧ is_completed referenceDate c = false)
  ∨ (is_active referenceDate c = false ∧ is_upcoming referenceDate c = false
     ∧ is_completed referenceDate c = true).
Proof.
  unfold is_active, is_upcoming, is_completed, date_leb. intros Hvalid.
  apply negb_true_iff in Hvalid.
  destruct (date_ltb referenceDate (start_date c)) eqn:Hup;
    destruct (date_ltb (end_date c) referenceDate) eqn:Hdone; simpl; auto.
  rewrite (date_ltb_trans _ _ _ Hdone Hup) in Hvalid. discriminate.
Qed.

(** C3.  For every set of current campaigns and every reference date,
    [categorize] puts a campaign in [completed] iff its end date is before
    the reference date, in [active] iff the reference date is within its
    dates, in [upcoming] iff its start date is after the reference date;
    a campaign with [start_date ≤ end_date] is in exactly one bucket. *)
Theorem buckets_partition current referenceDate c :
  c ∈ current →
  date_leb (start_date c) (end_date c) = true →
  let b := categorize current referenceDate in
  (c ∈ completed b ↔ date_ltb (end_date c) referenceDate = true)
  ∧ (c ∈ active b ↔
       date_leb (start_date c) referenceDate = true
       ∧ date_leb referenceDate (end_date c) = true)
  ∧ (c ∈ upcoming b ↔ date_ltb referenceDate (start_date c) = true)
  ∧ ((c ∈ active b ∧ ¬ c ∈ upcoming b ∧ ¬ c ∈ completed b)
     ∨ (¬ c ∈ active b ∧ c ∈ upcoming b ∧ ¬ c ∈ completed b)
     ∨ (¬ c ∈ active b ∧ ¬ c ∈ upcoming b ∧ c ∈ completed b)).
Proof.
  intros Hin Hvalid b. unfold b, categorize; simpl.
  assert (Hb : ∀ f, c ∈ List.filter f current ↔ f c = true).
  { intros f. rewrite elem_of_bucket. tauto. }
  rewrite !Hb. split_and!.
  - reflexivity.
  - unfold is_active. apply andb_true_iff.
  - reflexivity.
  - destruct (one_status referenceDate c Hvalid)
      as [(-> & -> & ->)|[(-> & -> & ->)|(-> & -> & ->)]];
      [left | right; left | right; right]; split_and!; done.
Qed.

Lemma buckets_partition_witness :
  let b := categorize [january; march] (Date 2024 1 15) in
  (january ∈ completed b ↔ date_ltb (end_date january) (Date 2024 1 15) = true)
  ∧ (january ∈ active b ↔
       date_leb (start_date january) (Date 2024 1 15) = true
       ∧ date_leb (Date 2024 1 15) (end_date january) = true)
  ∧ (january ∈ upcoming b ↔ date_ltb (Date 2024 1 15) (start_date january) = true)
  ∧ ((january ∈ active b ∧ ¬ january ∈ upcoming b ∧ ¬ january ∈ completed b)
     ∨ (¬ january ∈ active b ∧ january ∈ upcoming b ∧ ¬ january ∈ completed b)
     ∨ (¬ january ∈ active b ∧ ¬ january ∈ upcoming b ∧ january ∈ completed b)).
Proof.
  apply (buckets_partition [january; march] (Date 2024 1 15) january).
  - left.
  - reflexivity.
Defined.

(** The buckets of the scenario of the specification. *)
Example scenario_buckets :
  categorize [january; march] (Date 2024 1 15)
  = MkBuckets [january] [march] []
  ∧ month_of march = (2024, 3).
Proof. split; reflexivity. Qed.

End CategorizerFacts.

(** ** The engine: diffing *)

Module DiffFacts.
Import Path Engine.
Import Samples.
Import QArith_base (Q, Qmake, Qeq_bool).

Lemma date_change_same name d : date_change name d d = [].
Proof. unfold date_change. by rewrite bool_decide_eq_true_2. Qed.

Lemma text_change_same name s : text_change name s s = [].
Proof. unfold text_change. by rewrite bool_decide_eq_true_2. Qed.

Lemma budget_change_same q : budget_change q q = [].
Proof. unfold budget_change. by rewrite QArith_base.Qeq_bool_refl. Qed.

Lemma checklist_changes_same m : checklist_changes m m = [].
Proof.
  unfold checklist_changes. induction (elements (dom m ∪ dom m)) as [|flag l IH]; [done |].
  simpl. by rewrite bool_decide_eq_true_2.
Qed.

(** A campaign compared with itself shows no difference. *)
Lemma compare_same c : compare c c = Unchanged.
Proof.
  unfold compare, field_changes.
  by rewrite !date_change_same, !text_change_same, budget_change_same,
    checklist_changes_same.
Qed.

Lemma diff_lookup current previous id :
  diff current previous !! id
  = classify (index current !! id) (index (from_option campaigns [] previous) !! id).
Proof.
  unfold diff. rewrite lookup_merge.
  by destruct (index current !! id), (index (from_option campaigns [] previous) !! id).
Qed.

Lemma index_is_Some cs c : c ∈ cs → is_Some (index cs !! identity_of c).
Proof.
  intros Hin. apply not_eq_None_Some. unfold index.
  intros Hnot%not_elem_of_list_to_map. apply Hnot.
  rewrite <- list_fmap_compose. apply list_elem_of_fmap. by exists c.
Qed.

(** C4.  Diffing the campaigns of a snapshot against that snapshot gives
    [unchanged] for every identity of the snapshot, and no entry of class
    [new], [removed] or [changed]: the result is the index of the
    snapshot with [unchanged] at every identity. *)
Theorem diff_self_unchanged (snapshot : Snapshot) :
  diff (campaigns snapshot) (Some snapshot)
    = (λ _, Unchanged) <$> index (campaigns snapshot)
  ∧ (∀ c, c ∈ campaigns snapshot →
       diff (campaigns snapshot) (Some snapshot) !! identity_of c = Some Unchanged)
  ∧ (∀ id record,
       diff (campaigns snapshot) (Some snapshot) !! id = Some record →
       record = Unchanged).
Proof.
  assert (Hlookup : ∀ id,
    diff (campaigns snapshot) (Some snapshot) !! id
    = (λ _, Unchanged) <$> index (campaigns snapshot) !! id).
  { intros id. rewrite diff_lookup. simpl.
    destruct (index (campaigns snapshot) !! id) as [c|]; simpl; [| done].
    by rewrite compare_same. }
  split_and!.
  - apply map_eq. intros id. by rewrite Hlookup, lookup_fmap.
  - intros c [c' Hc']%index_is_Some. by rewrite Hlookup, Hc'.
  - intros id record. rewrite Hlookup.
    destruct (index (campaigns snapshot) !! id); simpl; congruence.
Qed.

Lemma diff_self_unchanged_witness :
  diff [january; march]
       (Some (MkSnapshot 1705314600 [january; march]))
    !! identity_of march
  = Some Unchanged.
Proof.
  destruct (diff_self_unchanged
              (MkSnapshot 1705314600 [january; march]))
    as (_ & Hevery & _).
  apply (Hevery march). right. left.
Defined.

(** The scenarios of the specification: a first run flags both rows as
    new, a second run on the same rows flags both as unchanged, a changed
    budget is reported with its old and new value, and a row that is gone
    is reported as removed. *)
Example scenario_diff :
  let january := january in
  let march := march in
  let raised :=
    MkCampaign (vendor january) (event_name january) (tactic_name january)
      (order_id january) (start_date january) (end_date january)
      (retailer january) (brand january) (product january)
      (Qmake 60000 1) (setup_checklist january) in
  diff [january; march] None !! identity_of january = Some New
  ∧ diff [january; march] None !! identity_of march = Some New
  ∧ diff [january; march] (Some (MkSnapshot 0 [january; march])) !! identity_of march
    = Some Unchanged
  ∧ diff [raised] (Some (MkSnapshot 0 [january; march])) !! identity_of january
    = Some (Changed [("budget", (FBudget (Qmake 50000 1), FBudget (Qmake 60000 1)))])
  ∧ diff [raised] (Some (MkSnapshot 0 [january; march])) !! identity_of march
    = Some Removed.
Proof. cbv zeta. rewrite !diff_lookup. split_and!; reflexivity. Qed.

End DiffFacts.

(** ** The engine: loading *)

Module LoaderFacts.
Import Path Engine.
Import Samples.






End LoaderFacts.

(** ** The engine: retention *)

Module SweeperFacts.
Import Path Engine.
Import Samples.

Section Sweeper.
Variable embedded_timestamp : string → option Z.
Variable dir : path.
Variable retentionDays now : Z.

Local Abbreviation expired := (expired embedded_timestamp dir retentionDays now).
Local Abbreviation sweep := (sweep embedded_timestamp dir retentionDays now).

Lemma sweep_lookup fs p :
  (sweep fs).2 !! p = if expired p then None else fs !! p.
Proof.
  unfold Engine.sweep; simpl. rewrite map_lookup_filter.
  destruct (fs !! p) as [f|] eqn:Hp; simpl; [| by destruct (expired p)].
  destruct (expired p); by case_guard.
Qed.

Lemma sweep_count fs : size fs = ((sweep fs).1 + size (sweep fs).2)%nat.
Proof.
  unfold Engine.sweep; simpl.
  rewrite <- map_size_disj_union.
  - f_equal. symmetry.
    rewrite <- (map_filter_union_complement (λ kv, expired kv.1 = true) fs) at 3.
    f_equal. apply map_filter_ext. intros p f _. simpl. by destruct (expired p).
  - apply map_disjoint_spec. intros p f1 f2.
    intros [_ H1]%map_lookup_filter_Some [_ H2]%map_lookup_filter_Some.
    simpl in *. congruence.
Qed.

Lemma sweep_outside fs p : entry_name dir p = None → (sweep fs).2 !! p = fs !! p.
Proof.
  intros Hout. rewrite sweep_lookup. unfold Engine.expired. by rewrite Hout.
Qed.

Lemma sweep_touch g fs :
  sweep (touch g <$> fs) = ((sweep fs).1, touch g <$> (sweep fs).2).
Proof.
  unfold Engine.sweep; simpl. rewrite !map_filter_fmap. simpl.
  by rewrite map_size_fmap.
Qed.

Lemma sweep_again fs : sweep (sweep fs).2 = (0%nat, (sweep fs).2).
Proof.
  unfold Engine.sweep; simpl. f_equal.
  - apply map_size_empty_iff, map_empty. intros p.
    apply map_lookup_filter_None. right. intros f [_ H]%map_lookup_filter_Some.
    simpl in *. congruence.
  - apply map_eq. intros p. rewrite !map_lookup_filter.
    destruct (fs !! p) as [f|]; simpl; [| done].
    destruct (expired p) eqn:He; simpl; repeat (case_guard; simpl); done.
Qed.

(** C7.  [sweep] removes exactly the files of the output directory whose
    name embeds a generation time older than [retentionDays] before
    [now], and counts them; it leaves every file outside the directory
    (the history store among them) as it is; modification times play no
    part in it; and a second sweep with the same arguments removes
    nothing. *)
Theorem sweep_removes_expired (fs : gmap path file) :
  (∀ p, (sweep fs).2 !! p = if expired p then None else fs !! p)
  ∧ size fs = ((sweep fs).1 + size (sweep fs).2)%nat
  ∧ (∀ p, entry_name dir p = None → (sweep fs).2 !! p = fs !! p)
  ∧ (∀ g, sweep (touch g <$> fs) = ((sweep fs).1, touch g <$> (sweep fs).2))
  ∧ sweep (sweep fs).2 = (0%nat, (sweep fs).2).
Proof.
  split_and!.
  - apply sweep_lookup.
  - apply sweep_count.
  - apply sweep_outside.
  - intros g. apply sweep_touch.
  - apply sweep_again.
Qed.
End Sweeper.

Lemma sweep_removes_expired_witness :
  (sweep readme_timestamp ["out"] 30 1709300000 output_files).2
    !! ["out"; "campaign_history"; "campaign_history_20230115_103000.json"]
  = output_files !! ["out"; "campaign_history"; "campaign_history_20230115_103000.json"]
  ∧ sweep readme_timestamp ["out"] 30 1709300000
      (sweep readme_timestamp ["out"] 30 1709300000 output_files).2
    = (0%nat, (sweep readme_timestamp ["out"] 30 1709300000 output_files).2).
Proof.
  destruct (sweep_removes_expired readme_timestamp ["out"] 30 1709300000 output_files)
    as (_ & _ & Houtside & _ & Hagain).
  split; [| exact Hagain].
  apply Houtside. reflexivity.
Defined.

Example sweep_scenario :
  (sweep readme_timestamp ["out"] 30 1709300000 output_files).1 = 1%nat
  ∧ (sweep readme_timestamp ["out"] 30 1709300000 output_files).2
      !! ["out"; "Campaign_Status_Report_20240115_103000.md"] = None
  ∧ (sweep readme_timestamp ["out"] 30 1709300000 output_files).2
      !! ["out"; "Campaign_Status_Report_20240301_103000.md"]
      = Some (MkFile "march" 1600000000)
  ∧ (sweep readme_timestamp ["out"] 30 1709300000 output_files).2
      !! ["out"; "campaign_history"; "campaign_history_20230115_103000.json"]
      = Some (MkFile "history" 1600000000).
Proof. split_and!; by vm_compute. Qed.

End SweeperFacts.

(** * Further properties of the sources *)

(** ** The report-fetch route, continued *)

Module ReportRouteMore.
Import Path ReportRoute PathFacts.
Import Samples.

(** What the filename check refuses. *)
Lemma filename_re_refuses filename :
  filename_re filename = false ↔
  filename = "" ∨ ∃ c, c ∈ Js.chars filename ∧ filename_char c = false.
Proof.
  unfold filename_re, Regex.test. rewrite <- not_true_iff_false, RegexFacts.plus_class.
  split.
  - intros Hnot. destruct (decide (filename = "")) as [|Hne]; [by left | right].
    destruct (decide (Forall (λ c, filename_char c = true) (Js.chars filename)))
      as [Hall|Hsome].
    + exfalso. apply Hnot. split; [| done]. by destruct filename.
    + apply not_Forall_Exists in Hsome; [| apply _].
      apply Exists_exists in Hsome as (c & Hin & Hc).
      exists c. split; [done |]. by apply not_true_iff_false.
  - intros [-> | (c & Hin & Hc)] [Hne Hall]; [done |].
    rewrite Forall_forall in Hall. apply Hall in Hin. congruence.
Qed.

(** X1.  The route answers 400 for an invalid type, an empty filename, a
    filename that contains [..] or one with a character outside
    [[a-zA-Z0-9_\-.]], and for nothing else: every other request is looked
    up in the output directory. *)
Theorem get_400_exactly cwd fs type filename :
  status (resp (GET cwd fs type filename)) = 400 ↔
  (¬ type ∈ ["md"; "txt"]) ∨ filename = "" ∨ Js.includes filename ".." = true
  ∨ ∃ c, c ∈ Js.chars filename ∧ filename_char c = false.
Proof.
  unfold GET. case_bool_decide as Htype; simpl.
  2: { split; [by left | done]. }
  destruct (Js.includes filename "..") eqn:Hdots; simpl.
  { split; [by right; right; left | done]. }
  destruct (filename_re filename) eqn:Hre; simpl.
  - split.
    + by destruct (fs !! join (outputDir cwd) filename).
    + intros Hbad. exfalso.
      assert (filename_re filename = false) as Hre'; [| congruence].
      apply filename_re_refuses.
      destruct Hbad as [? | [? | [? | ?]]]; [done | by left | done | by right].
  - apply filename_re_refuses in Hre. split; [| done]. intros _.
    destruct Hre; auto.
Qed.

(** Only the requests the two checks let through come to a read. *)
Lemma looked_up cwd fs type filename :
  status (resp (GET cwd fs type filename)) ≠ 400 →
  type ∈ ["md"; "txt"]
  ∧ Js.includes filename ".." = false ∧ filename_re filename = true
  ∧ reads (GET cwd fs type filename) = [join (outputDir cwd) filename].
Proof.
  unfold GET. case_bool_decide as Htype; simpl; [| done].
  destruct (Js.includes filename ".."); simpl; [done |].
  destruct (filename_re filename); simpl; [| done].
  by destruct (fs !! join (outputDir cwd) filename).
Qed.

(** X2.  A served file goes out with a Content-Disposition header that
    quotes the requested filename, and that filename holds characters of
    [[a-zA-Z0-9_\-.]] only: no double quote, carriage return, line feed,
    slash or backslash can reach the header. *)
Theorem served_header_is_safe cwd fs type filename :
  status (resp (GET cwd fs type filename)) = 200 →
  headers (resp (GET cwd fs type filename)) !! 1%nat
    = Some ("Content-Disposition",
            "inline; filename=" +:+ String Js.dquote (filename +:+ String Js.dquote ""))
  ∧ Forall (λ c, filename_char c = true) (Js.chars filename)
  ∧ Forall (λ c, c ∉ Js.chars filename)
      [Js.dquote; ascii_of_N 13; ascii_of_N 10; slash; ascii_of_N 92].
Proof.
  intros Hok.
  assert (status (resp (GET cwd fs type filename)) ≠ 400) as Hne by (rewrite Hok; done).
  destruct (looked_up _ _ _ _ Hne) as (_ & _ & [_ Hall]%ReportRouteFacts.filename_re_chars & _).
  split_and!; [| done |].
  - revert Hok. unfold GET. case_bool_decide; simpl; [| done].
    destruct (Js.includes filename ".." || negb (filename_re filename)); simpl; [done |].
    by destruct (fs !! join (outputDir cwd) filename).
  - rewrite Forall_forall in Hall.
    repeat apply Forall_cons_2; [..| apply Forall_nil_2]; intros Hin%Hall; discriminate.
Qed.

Lemma served_header_is_safe_witness :
  headers (resp (GET ["srv"] served_fs "md" "report_1.md")) !! 1%nat
    = Some ("Content-Disposition",
            "inline; filename=" +:+ String Js.dquote ("report_1.md" +:+ String Js.dquote ""))
  ∧ Forall (λ c, filename_char c = true) (Js.chars "report_1.md")
  ∧ Forall (λ c, c ∉ Js.chars "report_1.md")
      [Js.dquote; ascii_of_N 13; ascii_of_N 10; slash; ascii_of_N 92].
Proof.
  apply (served_header_is_safe ["srv"] served_fs "md" "report_1.md"). reflexivity.
Defined.

(** X3.  Whatever the file system holds, a path the route hands to
    [readFile] is the output directory itself (for the filename [.] only)
    or an entry of it named by the filename: never a path above the
    directory, beside it or deeper inside it, and there is at most one
    read per request. *)
Theorem reads_stay_in_output cwd fs type filename p :
  p ∈ reads (GET cwd fs type filename) →
  reads (GET cwd fs type filename) = [p]
  ∧ ((filename = "." ∧ p = outputDir cwd)
     ∨ (filename ≠ "." ∧ p = outputDir cwd ++ [filename]
        ∧ is_entry_of (outputDir cwd) p = true)).
Proof.
  intros Hp.
  assert (status (resp (GET cwd fs type filename)) ≠ 400) as Hne.
  { intros H400. revert Hp. unfold GET in *. case_bool_decide; simpl in *.
    - destruct (Js.includes filename ".." || negb (filename_re filename)); simpl in *;
        [by intros ?%elem_of_nil |].
      by destruct (fs !! join (outputDir cwd) filename).
    - by intros ?%elem_of_nil. }
  destruct (looked_up _ _ _ _ Hne) as (_ & Hdots & Hre & Hreads).
  rewrite Hreads in Hp |- *. apply list_elem_of_singleton in Hp as ->.
  split; [done |].
  destruct (ReportRouteFacts.accepted_path (outputDir cwd) filename Hdots Hre)
    as [[-> Heq] | (Hd & Heq & Hentry)]; [left | right]; rewrite Heq; done.
Qed.

Lemma reads_stay_in_output_witness :
  reads (GET ["srv"] served_fs "txt" ".") = [["srv"; "data"; "output"]]
  ∧ (("." = "." ∧ ["srv"; "data"; "output"] = outputDir ["srv"])
     ∨ ("." ≠ "." ∧ ["srv"; "data"; "output"] = outputDir ["srv"] ++ ["."]
        ∧ is_entry_of (outputDir ["srv"]) ["srv"; "data"; "output"] = true)).
Proof.
  apply (reads_stay_in_output ["srv"] served_fs "txt" "." ["srv"; "data"; "output"]).
  vm_compute. left.
Defined.

(** X4.  The answer depends on the output directory alone: two file
    systems that hold the same files in [data/output] (and agree on whether
    that path is itself a file) get the same response and the same reads
    for every request; no file elsewhere can be told from the answers. *)
Theorem outside_files_do_not_matter cwd fs1 fs2 type filename :
  (∀ p, p = outputDir cwd ∨ is_entry_of (outputDir cwd) p = true →
        fs1 !! p = fs2 !! p) →
  GET cwd fs1 type filename = GET cwd fs2 type filename.
Proof.
  intros Hsame. unfold GET. case_bool_decide; simpl; [| done].
  destruct (Js.includes filename "..") eqn:Hdots; simpl; [done |].
  destruct (filename_re filename) eqn:Hre; simpl; [| done].
  assert (fs1 !! join (outputDir cwd) filename = fs2 !! join (outputDir cwd) filename) as ->;
    [| done].
  apply Hsame.
  destruct (ReportRouteFacts.accepted_path (outputDir cwd) filename Hdots Hre)
    as [[_ Heq] | (_ & Heq & Hentry)]; rewrite Heq; auto.
Qed.

Lemma outside_files_do_not_matter_witness :
  GET ["srv"] served_fs "md" "report_1.md"
  = GET ["srv"] (delete ["srv"; "secret.txt"] served_fs) "md" "report_1.md".
Proof.
  apply (outside_files_do_not_matter ["srv"] served_fs
           (delete ["srv"; "secret.txt"] served_fs) "md" "report_1.md").
  intros p Hp. symmetry. apply lookup_delete_ne.
  intros <-. destruct Hp as [Hp | Hp]; [discriminate Hp | discriminate Hp].
Defined.
End ReportRouteMore.

(** ** The address check of the recipient form *)

Module ValidateEmailFacts.
Import Regex Recipients RecipientViews.
Import Samples.

Lemma lang_plus_class p s :
  lang (Plus (Class p)) s ↔ s ≠ [] ∧ Forall (λ c, p c = true) s.
Proof. rewrite <- RegexFacts.matches_lang. apply RegexFacts.plus_class. Qed.

Lemma lang_lit c s : lang (Lit c) s ↔ s = [c].
Proof.
  unfold Lit. split.
  - intros H. inversion H as [|p c' Hc| | | | |]; subst.
    by apply bool_decide_eq_true in Hc as ->.
  - intros ->. constructor. by apply bool_decide_eq_true.
Qed.

Lemma lang_cat_iff r1 r2 s :
  lang (Cat r1 r2) s ↔ ∃ s1 s2, s = s1 ++ s2 ∧ lang r1 s1 ∧ lang r2 s2.
Proof.
  split.
  - intros H. inversion H; subst. eauto.
  - intros (s1 & s2 & -> & H1 & H2). by constructor.
Qed.

(** X5.  [validateEmail] accepts exactly the texts of the form
    local@domain.tld in which each of the three parts is non-empty and free
    of whitespace and of [@]; the domain may itself hold dots. *)
Theorem validateEmail_shape email :
  validateEmail email = true ↔
  ∃ local domain tld,
    Js.chars email = local ++ "@"%char :: domain ++ "."%char :: tld
    ∧ address_part local ∧ address_part domain ∧ address_part tld.
Proof.
  unfold validateEmail, test. rewrite RegexFacts.matches_lang. unfold email_re.
  unfold address_part. split.
  - intros (a & s1 & Hs & Ha%lang_plus_class & H1)%lang_cat_iff.
    apply lang_cat_iff in H1 as (x & s2 & -> & ->%lang_lit & H2).
    apply lang_cat_iff in H2 as (b & s3 & -> & Hb%lang_plus_class & H3).
    apply lang_cat_iff in H3 as (y & c & -> & ->%lang_lit & Hc%lang_plus_class).
    by exists a, b, c.
  - intros (a & b & c & Hs & Ha & Hb & Hc).
    apply lang_cat_iff. exists a, ("@"%char :: b ++ "."%char :: c).
    split_and!; [done | by apply lang_plus_class |].
    apply lang_cat_iff. exists ["@"%char], (b ++ "."%char :: c).
    split_and!; [done | by apply lang_lit |].
    apply lang_cat_iff. exists b, ("."%char :: c).
    split_and!; [done | by apply lang_plus_class |].
    apply lang_cat_iff. exists ["."%char], c.
    split_and!; [done | by apply lang_lit | by apply lang_plus_class].
Qed.

Lemma address_char_facts c :
  address_char c = true → Js.is_space c = false ∧ c ≠ "@"%char.
Proof.
  unfold address_char. intros [Hs Ha]%andb_true_iff.
  apply negb_true_iff in Hs. apply negb_true_iff, bool_decide_eq_false in Ha. done.
Qed.

Lemma no_at (s : list ascii) :
  Forall (λ c, address_char c = true) s → filter (λ c, c = "@"%char) s = [].
Proof.
  induction 1 as [|c s Hc _ IH]; [done |].
  apply address_char_facts in Hc as [_ Hc]. by rewrite filter_cons_False.
Qed.

(** X6.  An address that [validateEmail] accepts holds no whitespace,
    exactly one [@] and at least five characters. *)
Theorem valid_address_facts email :
  validateEmail email = true →
  Forall (λ c, Js.is_space c = false) (Js.chars email)
  ∧ length (filter (λ c, c = "@"%char) (Js.chars email)) = 1%nat
  ∧ (5 ≤ length (Js.chars email))%nat.
Proof.
  intros (a & b & c & -> & [Ha Hla] & [Hb Hlb] & [Hc Hlc])%validateEmail_shape.
  split_and!.
  - assert (Hpart : ∀ s, Forall (λ c, address_char c = true) s →
                         Forall (λ c, Js.is_space c = false) s).
    { intros s Hs. eapply Forall_impl; [exact Hs |].
      intros x Hx. by apply address_char_facts in Hx as [? _]. }
    apply Forall_app. split; [by apply Hpart |].
    apply Forall_cons. split; [done |].
    apply Forall_app. split; [by apply Hpart |].
    apply Forall_cons. split; [done | by apply Hpart].
  - rewrite filter_app, filter_cons_True by done.
    rewrite filter_app, filter_cons_False by done.
    by rewrite !no_at.
  - rewrite length_app. simpl. rewrite length_app. simpl.
    destruct a, b, c; simpl; try done; lia.
Qed.

Lemma valid_address_facts_witness :
  Forall (λ c, Js.is_space c = false) (Js.chars "ops@example.com")
  ∧ length (filter (λ c, c = "@"%char) (Js.chars "ops@example.com")) = 1%nat
  ∧ (5 ≤ length (Js.chars "ops@example.com"))%nat.
Proof. apply (valid_address_facts "ops@example.com"). reflexivity. Defined.

End ValidateEmailFacts.

(** ** Recipient lists, continued *)

Module RecipientsMore.
Import Recipients RecipientViews.
Import Samples.

Lemma filter_absent (l : list string) email :
  email ∉ l → filter (λ e, e ≠ email) l = l.
Proof.
  induction l as [|x l IH]; [done |].
  intros [Hx Hl]%not_elem_of_cons. rewrite filter_cons_True by done. by rewrite IH.
Qed.

Lemma filter_snoc_absent (l : list string) email :
  email ∉ l → filter (λ e, e ≠ email) (l ++ [email]) = l.
Proof.
  intros Hl. rewrite filter_app, filter_absent by done.
  rewrite filter_cons_False by (intros H; by apply H). apply app_nil_r.
Qed.

(** What one call of [addEmail] does, by cases. *)
Lemma addEmail_cases type email st :
  (email ≠ "" ∧ validateEmail email = true
   ∧ (¬ email ∈ primaryEmails st) ∧ (¬ email ∈ ccEmails st)
   ∧ emailError (addEmail type email st) = ""
   ∧ named_list type (addEmail type email st) = named_list type st ++ [email]
   ∧ other_list type (addEmail type email st) = other_list type st)
  ∨ ((email = "" ∨ validateEmail email = false
      ∨ email ∈ primaryEmails st ∨ email ∈ ccEmails st)
     ∧ ∃ msg, msg ≠ "" ∧ addEmail type email st = setEmailError msg st).
Proof.
  unfold addEmail. case_bool_decide as Hempty.
  { right. split; [by left |]. by exists "Please enter an email address". }
  destruct (validateEmail email) eqn:Hvalid; simpl.
  2: { right. split; [by right; left |]. by exists "Please enter a valid email address". }
  unfold includes.
  destruct (decide (email ∈ primaryEmails st)) as [Hp|Hp];
    destruct (decide (email ∈ ccEmails st)) as [Hc|Hc];
    destruct type; simpl;
    rewrite ?(bool_decide_eq_true_2 _ Hp), ?(bool_decide_eq_true_2 _ Hc),
            ?(bool_decide_eq_false_2 _ Hp), ?(bool_decide_eq_false_2 _ Hc); simpl;
    try (right; split; [auto |]; by exists "Email already exists in the lists");
    left; split_and!; done.
Qed.

(** X7.  Adding an address that neither list holds and removing it again
    from the same list gives both lists back as they were. *)
Theorem add_then_remove type email st :
  email ∉ primaryEmails st → email ∉ ccEmails st →
  primaryEmails (removeEmail type email (addEmail type email st)) = primaryEmails st
  ∧ ccEmails (removeEmail type email (addEmail type email st)) = ccEmails st.
Proof.
  intros Hp Hc.
  destruct (addEmail_cases type email st)
    as [(_ & _ & _ & _ & _ & Hnamed & Hother) | (_ & msg & _ & ->)].
  - destruct type; simpl in *; rewrite Hnamed, Hother;
      by rewrite filter_snoc_absent.
  - destruct type; simpl; by rewrite filter_absent.
Qed.

Lemma add_then_remove_witness :
  primaryEmails (removeEmail cc "cfo@example.com" (addEmail cc "cfo@example.com" two_recipients))
    = primaryEmails two_recipients
  ∧ ccEmails (removeEmail cc "cfo@example.com" (addEmail cc "cfo@example.com" two_recipients))
    = ccEmails two_recipients.
Proof.
  apply (add_then_remove cc "cfo@example.com" two_recipients);
    apply (bool_decide_unpack _); vm_compute; exact I.
Defined.

(** X8.  Adding the same address a second time, to either list, changes
    neither list: an address is never stored twice and never in both
    lists through [addEmail]. *)
Theorem second_add_is_refused first second email st :
  primaryEmails (addEmail second email (addEmail first email st))
    = primaryEmails (addEmail first email st)
  ∧ ccEmails (addEmail second email (addEmail first email st))
    = ccEmails (addEmail first email st).
Proof.
  assert (Hin : email = "" ∨ validateEmail email = false
                ∨ email ∈ primaryEmails (addEmail first email st)
                ∨ email ∈ ccEmails (addEmail first email st)).
  { destruct (addEmail_cases first email st)
      as [(_ & _ & _ & _ & _ & Hnamed & _) | (Hwhy & msg & _ & ->)].
    - right; right. destruct first; simpl in Hnamed; [left | right];
        rewrite Hnamed; apply elem_of_app; right; left.
    - simpl. tauto. }
  destruct (addEmail_cases second email (addEmail first email st))
    as [(Hne & Hv & Hp & Hc & _) | (_ & msg & _ & ->)]; [| done].
  exfalso. destruct Hin as [? | [? | [? | ?]]]; [done | congruence | done | done].
Qed.

(** X9.  [removeEmail] deletes every occurrence of the address from the
    list it names and keeps the other addresses of that list, in their
    order; removing an address the list does not hold, or removing a second
    time, changes nothing. *)
Theorem removeEmail_removes type email st :
  (¬ email ∈ named_list type (removeEmail type email st))
  ∧ (∀ e, e ≠ email →
       (e ∈ named_list type (removeEmail type email st) ↔ e ∈ named_list type st))
  ∧ sublist (named_list type (removeEmail type email st)) (named_list type st)
  ∧ other_list type (removeEmail type email st) = other_list type st
  ∧ (email ∉ named_list type st → removeEmail type email st = st)
  ∧ removeEmail type email (removeEmail type email st) = removeEmail type email st.
Proof.
  assert (Hgone : ∀ l : list string, email ∉ filter (λ e, e ≠ email) l).
  { intros l [Hne _]%list_elem_of_filter. by apply Hne. }
  split_and!.
  - destruct type; apply Hgone.
  - intros e He. destruct type; simpl; rewrite list_elem_of_filter; tauto.
  - destruct type; simpl; apply sublist_filter.
  - by destruct type.
  - intros Habsent. destruct st, type; simpl in *; by rewrite filter_absent.
  - destruct type; simpl; by rewrite filter_absent.
Qed.

Lemma removeEmail_removes_witness :
  removeEmail primary "nobody@example.com" two_recipients = two_recipients.
Proof.
  destruct (removeEmail_removes primary "nobody@example.com" two_recipients)
    as (_ & _ & _ & _ & Habsent & _).
  apply Habsent. apply (bool_decide_unpack _). vm_compute. exact I.
Defined.

(** X10.  When every stored address passes [validateEmail], it still does
    after [addEmail] and after [removeEmail]: the handlers never store an
    address the check refuses. *)
Theorem stored_addresses_stay_valid type email st :
  all_valid st →
  all_valid (addEmail type email st) ∧ all_valid (removeEmail type email st).
Proof.
  intros [Hp Hc]. split.
  - destruct (addEmail_cases type email st)
      as [(_ & Hv & _ & _ & _ & Hnamed & Hother) | (_ & msg & _ & ->)]; [| done].
    assert (Hsnoc : ∀ l, Forall (λ e, validateEmail e = true) l →
                         Forall (λ e, validateEmail e = true) (l ++ [email])).
    { intros l Hl. apply Forall_app. split; [done | by apply Forall_singleton]. }
    unfold all_valid. destruct type; simpl in *; rewrite Hnamed, Hother; auto.
  - assert (Hfilter : ∀ l, Forall (λ e, validateEmail e = true) l →
                           Forall (λ e, validateEmail e = true) (filter (λ e, e ≠ email) l)).
    { intros l Hl. rewrite Forall_forall in Hl. apply Forall_forall.
      intros x [_ Hx]%list_elem_of_filter. by apply Hl. }
    unfold all_valid. destruct type; simpl; auto.
Qed.

Lemma stored_addresses_stay_valid_witness :
  all_valid (addEmail cc "cfo@example.com" two_recipients)
  ∧ all_valid (removeEmail cc "cfo@example.com" two_recipients).
Proof.
  apply (stored_addresses_stay_valid cc "cfo@example.com" two_recipients).
  split; repeat constructor.
Defined.

(** X11.  [addEmail] leaves the error message empty exactly when the
    address is non-empty, passes [validateEmail] and is in neither list;
    then the address goes to the end of the named list and the other list
    stays, and in every other case both lists stay as they were. *)
Theorem addEmail_accepts_exactly type email st :
  (emailError (addEmail type email st) = "" ↔
     email ≠ "" ∧ validateEmail email = true
     ∧ (¬ email ∈ primaryEmails st) ∧ (¬ email ∈ ccEmails st))
  ∧ (emailError (addEmail type email st) = "" →
     named_list type (addEmail type email st) = named_list type st ++ [email]
     ∧ other_list type (addEmail type email st) = other_list type st)
  ∧ (emailError (addEmail type email st) ≠ "" →
     primaryEmails (addEmail type email st) = primaryEmails st
     ∧ ccEmails (addEmail type email st) = ccEmails st).
Proof.
  destruct (addEmail_cases type email st)
    as [(Hne & Hv & Hp & Hc & Herr & Hnamed & Hother) | (Hwhy & msg & Hmsg & ->)].
  - rewrite Herr. split_and!; [done | done | done].
  - simpl. split_and!; [| done | done].
    split; [done |]. intros (Hne & Hv & Hp & Hc). exfalso.
    destruct Hwhy as [? | [? | [? | ?]]]; [done | congruence | done | done].
Qed.

Lemma addEmail_accepts_exactly_witness :
  named_list cc (addEmail cc "cfo@example.com" two_recipients)
    = ["lead@example.com"; "cfo@example.com"]
  ∧ other_list cc (addEmail cc "cfo@example.com" two_recipients) = ["ops@example.com"].
Proof.
  destruct (addEmail_accepts_exactly cc "cfo@example.com" two_recipients)
    as (_ & Hadded & _).
  apply Hadded. reflexivity.
Defined.

End RecipientsMore.

(** ** The upload route, continued *)

Module ProcessRouteMore.
Import Path Js ProcessRoute ProcessRouteViews PathFacts.
Import Samples MoreSamples.

Lemma chars_app a b : chars (a +:+ b) = chars a ++ chars b.
Proof.
  induction a as [|c a IH]; [done |].
  change (chars (String c (a +:+ b)) = c :: (chars a ++ chars b)).
  unfold chars in *. simpl. by rewrite IH.
Qed.

Lemma chars_of_list l : chars (String.string_of_list_ascii l) = l.
Proof. apply String.list_ascii_of_string_of_list_ascii. Qed.

Lemma digits_only_chars s :
  chars (digits_only s) = filter (λ c, is_digit c = true) (chars s).
Proof. unfold digits_only. apply chars_of_list. Qed.

Lemma filter_twice (l : list ascii) :
  filter (λ c, is_digit c = true) (filter (λ c, is_digit c = true) l)
  = filter (λ c, is_digit c = true) l.
Proof.
  induction l as [|c l IH]; [done |].
  destruct (is_digit c) eqn:Hc.
  - rewrite (filter_cons_True _ c l) by done.
    rewrite filter_cons_True by done. by f_equal.
  - by rewrite filter_cons_False by (by rewrite Hc).
Qed.

(** [s.replace(/[^0-9]/g, "")] keeps the decimal digits of [s], all
    of them and in their order, and nothing else; applied twice it gives
    what it gives once. *)
Lemma digits_only_keeps_digits s :
  Forall (λ c, is_digit c = true) (chars (digits_only s))
  ∧ (∀ c, is_digit c = true → (c ∈ chars (digits_only s) ↔ c ∈ chars s))
  ∧ sublist (chars (digits_only s)) (chars s)
  ∧ digits_only (digits_only s) = digits_only s.
Proof.
  rewrite digits_only_chars. split_and!.
  - apply Forall_forall. by intros c [Hc _]%list_elem_of_filter.
  - intros c Hc. rewrite list_elem_of_filter. tauto.
  - apply sublist_filter.
  - unfold digits_only at 1. rewrite digits_only_chars, filter_twice. done.
Qed.

Lemma no_slash_digits s : slash ∉ chars (digits_only s).
Proof. rewrite digits_only_chars. by intros [Hc _]%list_elem_of_filter. Qed.

(** The name of a file of one run: a fixed prefix, digits, a fixed suffix. *)
Lemma run_file_name base pre suf s :
  slash ∉ chars pre → slash ∉ chars suf →
  (∃ c rest, pre = String c rest ∧ c ≠ "."%char) →
  join base (pre +:+ digits_only s +:+ suf) = base ++ [pre +:+ digits_only s +:+ suf]
  ∧ is_entry_of base (base ++ [pre +:+ digits_only s +:+ suf]) = true.
Proof.
  intros Hpre Hsuf (c & rest & -> & Hc).
  assert (slash ∉ chars (String c rest +:+ digits_only s +:+ suf)) as Hsep.
  { rewrite !chars_app, !elem_of_app. pose proof (no_slash_digits s). tauto. }
  assert (∀ t, String c rest +:+ t ≠ "" ∧ String c rest +:+ t ≠ "."
               ∧ String c rest +:+ t ≠ "..") as Hname.
  { intros t. split_and!; intros [= ]; congruence. }
  destruct (Hname (digits_only s +:+ suf)) as (H1 & H2 & H3).
  split; [by apply join_component | by apply is_entry_of_app].
Qed.

Section Route.
Variable cwd : path.
Variable env : string → option string.
Variable now : string.
Variable JSON_parse : string → completion value.
Variable yaml_stringify : value → string.
Variable parseInt : string → value.
Variable write_error : path → option string.
Variable spawn : list string → exited.

Local Abbreviation POST := (POST cwd env now JSON_parse yaml_stringify parseInt write_error spawn).
Local Abbreviation POST_try :=
  (POST_try cwd env now JSON_parse yaml_stringify parseInt write_error spawn).
Local Abbreviation runPythonScript := (runPythonScript cwd JSON_parse spawn).

(** The handler, once the form is read, both fields are parsed, the file is
    there and both writes succeed: what is left is the run of the script. *)
Lemma POST_after_writes req data bytes primaryEmails ccEmails :
  formData req = Ok data →
  form_file data = Some bytes →
  JSON_parse (field_text (form_primaryEmails data)) = Ok primaryEmails →
  JSON_parse (field_text (form_ccEmails data)) = Ok ccEmails →
  write_error (upload_path cwd now) = None →
  write_error (config_path cwd now) = None →
  POST_try req []
  = (script_answer (runPythonScript (render (config_path cwd now))),
     [(upload_path cwd now, bytes);
      (config_path cwd now,
       yaml_stringify
         (configData env parseInt (upload_path cwd now)
            (join_all cwd ["data"; "output"]) primaryEmails ccEmails))]).
Proof.
  intros Hform Hfile Hp Hc Hw1 Hw2.
  unfold ProcessRoute.POST_try, mbind, M_bind, and_then, lift, writeFile, script_answer.
  rewrite Hform, Hp, Hc, Hfile.
  fold (upload_path cwd now). fold (config_path cwd now).
  rewrite Hw1, Hw2. simpl.
  destruct (runPythonScript (render (config_path cwd now))) as [result|msg]; simpl; [| done].
  destruct (get result "success") as [success|msg]; simpl; [| done].
  destruct (truthy success); simpl; [done |].
  by destruct (get result "error").
Qed.

(** What the handler has written, whatever the request. *)
Lemma POST_writes req :
  writes (POST req) = []
  ∨ (∃ bytes, writes (POST req) = [(upload_path cwd now, bytes)])
  ∨ (∃ bytes text,
       writes (POST req) = [(upload_path cwd now, bytes); (config_path cwd now, text)]).
Proof.
  unfold ProcessRoute.POST.
  destruct (formData req) as [data|msg] eqn:Hform.
  2: { left. unfold ProcessRoute.POST_try, mbind, M_bind, and_then, lift. by rewrite Hform. }
  destruct (JSON_parse (field_text (form_primaryEmails data))) as [ps|msg] eqn:Hp.
  2: { left. unfold ProcessRoute.POST_try, mbind, M_bind, and_then, lift.
       by rewrite Hform, Hp. }
  destruct (JSON_parse (field_text (form_ccEmails data))) as [cs|msg] eqn:Hc.
  2: { left. unfold ProcessRoute.POST_try, mbind, M_bind, and_then, lift.
       by rewrite Hform, Hp, Hc. }
  destruct (form_file data) as [bytes|] eqn:Hfile.
  2: { left. unfold ProcessRoute.POST_try, mbind, M_bind, and_then, lift.
       by rewrite Hform, Hp, Hc, Hfile. }
  destruct (write_error (upload_path cwd now)) as [e|] eqn:Hw1.
  { left. unfold ProcessRoute.POST_try, mbind, M_bind, and_then, lift, writeFile.
    rewrite Hform, Hp, Hc, Hfile. fold (upload_path cwd now). by rewrite Hw1. }
  destruct (write_error (config_path cwd now)) as [e|] eqn:Hw2.
  { right; left. exists bytes.
    unfold ProcessRoute.POST_try, mbind, M_bind, and_then, lift, writeFile.
    rewrite Hform, Hp, Hc, Hfile. fold (upload_path cwd now). fold (config_path cwd now).
    by rewrite Hw1, Hw2. }
  right; right. eexists bytes, _.
  rewrite (POST_after_writes req data bytes ps cs) by done.
  by destruct (script_answer _).
Qed.

Lemma upload_path_entry :
  upload_path cwd now
    = join_all cwd ["data"; "uploads"]
      ++ ["campaign_report_" +:+ digits_only now +:+ ".csv"]
  ∧ is_entry_of (join_all cwd ["data"; "uploads"]) (upload_path cwd now) = true.
Proof.
  unfold upload_path.
  destruct (run_file_name (join_all cwd ["data"; "uploads"]) "campaign_report_" ".csv" now)
    as [Hjoin Hentry];
    [apply (bool_decide_unpack _); vm_compute; exact I.. | |].
  - eexists _, _. split; [reflexivity | done].
  - by rewrite Hjoin.
Qed.

Lemma config_path_entry :
  config_path cwd now
    = join_all cwd ["data"; "config"] ++ ["config_" +:+ digits_only now +:+ ".yaml"]
  ∧ is_entry_of (join_all cwd ["data"; "config"]) (config_path cwd now) = true.
Proof.
  unfold config_path.
  destruct (run_file_name (join_all cwd ["data"; "config"]) "config_" ".yaml" now)
    as [Hjoin Hentry];
    [apply (bool_decide_unpack _); vm_compute; exact I.. | |].
  - eexists _, _. split; [reflexivity | done].
  - by rewrite Hjoin.
Qed.

(** X12.  Whatever the request, the clock and the environment, the handler
    writes at most two files, the upload first and the configuration
    second, and each is an entry of [data/uploads] or of [data/config]
    whose name is a fixed prefix, the digits of the timestamp and a fixed
    extension: nothing of the request reaches a path. *)
Theorem POST_writes_confined req :
  (writes (POST req)).*1 `prefix_of` [upload_path cwd now; config_path cwd now]
  ∧ upload_path cwd now
      = join_all cwd ["data"; "uploads"]
        ++ ["campaign_report_" +:+ digits_only now +:+ ".csv"]
  ∧ config_path cwd now
      = join_all cwd ["data"; "config"] ++ ["config_" +:+ digits_only now +:+ ".yaml"]
  ∧ is_entry_of (join_all cwd ["data"; "uploads"]) (upload_path cwd now) = true
  ∧ is_entry_of (join_all cwd ["data"; "config"]) (config_path cwd now) = true.
Proof.
  destruct upload_path_entry as [Hu1 Hu2]. destruct config_path_entry as [Hc1 Hc2].
  split_and!; [| done..].
  destruct (POST_writes req) as [-> | [(bytes & ->) | (bytes & text & ->)]]; simpl.
  - apply prefix_nil.
  - by exists [config_path cwd now].
  - by exists [].
Qed.

Lemma script_answer_status run :
  match script_answer run with
  | Ok r => json_status r = 200
  | Throw _ => True
  end.
Proof.
  unfold script_answer. destruct run as [result|]; simpl; [| done].
  destruct (get result "success") as [success|]; simpl; [| done].
  destruct (truthy success); simpl; [done |].
  by destruct (get result "error").
Qed.

(** X13.  The handler answers 400 exactly when the form can be read, both
    recipient fields parse and the form holds no file; it has then written
    nothing.  A request without a file whose recipient fields do not parse
    is answered 500, since the fields are parsed before the file is looked
    at. *)
Theorem POST_400_exactly req :
  (json_status (answer (POST req)) = 400 ↔
   ∃ data primaryEmails ccEmails,
     formData req = Ok data
     ∧ JSON_parse (field_text (form_primaryEmails data)) = Ok primaryEmails
     ∧ JSON_parse (field_text (form_ccEmails data)) = Ok ccEmails
     ∧ form_file data = None)
  ∧ (json_status (answer (POST req)) = 400 → writes (POST req) = [])
  ∧ (∀ data msg,
       formData req = Ok data →
       JSON_parse (field_text (form_primaryEmails data)) = Throw msg →
       POST req = Handled (answer_500 msg) []).
Proof.
  assert (Hmain :
    (∃ data primaryEmails ccEmails,
       formData req = Ok data
       ∧ JSON_parse (field_text (form_primaryEmails data)) = Ok primaryEmails
       ∧ JSON_parse (field_text (form_ccEmails data)) = Ok ccEmails
       ∧ form_file data = None
       ∧ json_status (answer (POST req)) = 400 ∧ writes (POST req) = [])
    ∨ (json_status (answer (POST req)) ≠ 400
       ∧ ¬ ∃ data primaryEmails ccEmails,
           formData req = Ok data
           ∧ JSON_parse (field_text (form_primaryEmails data)) = Ok primaryEmails
           ∧ JSON_parse (field_text (form_ccEmails data)) = Ok ccEmails
           ∧ form_file data = None)).
  { unfold ProcessRoute.POST.
    destruct (formData req) as [data|msg] eqn:Hform.
    2: { right. unfold ProcessRoute.POST_try, mbind, M_bind, and_then, lift.
         rewrite Hform. split; [done |]. by intros (? & ? & ? & ? & _). }
    destruct (JSON_parse (field_text (form_primaryEmails data))) as [ps|msg] eqn:Hp.
    2: { right. unfold ProcessRoute.POST_try, mbind, M_bind, and_then, lift.
         rewrite Hform, Hp. split; [done |].
         intros (? & ? & ? & [= <-] & ? & _). congruence. }
    destruct (JSON_parse (field_text (form_ccEmails data))) as [cs|msg] eqn:Hc.
    2: { right. unfold ProcessRoute.POST_try, mbind, M_bind, and_then, lift.
         rewrite Hform, Hp, Hc. split; [done |].
         intros (? & ? & ? & [= <-] & ? & ? & _). congruence. }
    destruct (form_file data) as [bytes|] eqn:Hfile.
    2: { left. exists data, ps, cs.
         unfold ProcessRoute.POST_try, mbind, M_bind, and_then, lift.
         by rewrite Hform, Hp, Hc, Hfile. }
    right. split; [| intros (? & ? & ? & [= <-] & ? & ? & ?); congruence].
    destruct (write_error (upload_path cwd now)) as [e|] eqn:Hw1.
    { unfold ProcessRoute.POST_try, mbind, M_bind, and_then, lift, writeFile.
      rewrite Hform, Hp, Hc, Hfile. fold (upload_path cwd now). by rewrite Hw1. }
    destruct (write_error (config_path cwd now)) as [e|] eqn:Hw2.
    { unfold ProcessRoute.POST_try, mbind, M_bind, and_then, lift, writeFile.
      rewrite Hform, Hp, Hc, Hfile. fold (upload_path cwd now). fold (config_path cwd now).
      by rewrite Hw1, Hw2. }
    rewrite (POST_after_writes req data bytes ps cs) by done.
    pose proof (script_answer_status (runPythonScript (render (config_path cwd now)))) as Hs.
    destruct (script_answer _); simpl; [by rewrite Hs | done]. }
  split_and!.
  - destruct Hmain as [(d & ps & cs & ? & ? & ? & ? & H400 & _) | [Hne Hnot]].
    + split; [| done]. intros _. by exists d, ps, cs.
    + split; [done | by intros ?%Hnot].
  - destruct Hmain as [(_ & _ & _ & _ & _ & _ & _ & _ & Hw) | [Hne _]]; done.
  - intros data msg Hform Hp.
    unfold ProcessRoute.POST, ProcessRoute.POST_try, mbind, M_bind, and_then, lift.
    by rewrite Hform, Hp.
Qed.

(** What [runPythonScript] resolves to, by the exit of the process. *)
Lemma runPythonScript_cases configPath :
  let p := spawn ["python"; render (join_all cwd ["python"; "process_campaign.py"]);
                  "--config"; configPath] in
  (code p ≠ Some 0
   ∧ runPythonScript configPath
     = Throw ("Python script failed (code " +:+ code_text (code p) +:+ "): " +:+ stderr p))
  ∨ (code p = Some 0
     ∧ ((∃ result, JSON_parse (stdout p) = Ok result
                   ∧ runPythonScript configPath = Ok result)
        ∨ ((∃ msg, JSON_parse (stdout p) = Throw msg)
           ∧ runPythonScript configPath
             = Ok (VObj [("stdout", VStr (stdout p)); ("stderr", VStr (stderr p))])))).
Proof.
  intros p. unfold ProcessRoute.runPythonScript. fold p.
  case_bool_decide as Hcode; simpl; [right | by left].
  split; [done |]. destruct (JSON_parse (stdout p)) as [result|msg]; [left | right]; eauto.
Qed.

(** X14.  The handler answers 200 only after a complete run: the form was
    read, both recipient fields parsed, the file was there, both writes
    succeeded, the script exited with code 0 and printed JSON whose
    [success] is truthy; the answer then carries that JSON as [data]. *)
Theorem POST_200_means req :
  json_status (answer (POST req)) = 200 →
  ∃ data bytes primaryEmails ccEmails result success,
    formData req = Ok data
    ∧ form_file data = Some bytes
    ∧ JSON_parse (field_text (form_primaryEmails data)) = Ok primaryEmails
    ∧ JSON_parse (field_text (form_ccEmails data)) = Ok ccEmails
    ∧ write_error (upload_path cwd now) = None
    ∧ write_error (config_path cwd now) = None
    ∧ code (spawned cwd now spawn) = Some 0
    ∧ JSON_parse (stdout (spawned cwd now spawn)) = Ok result
    ∧ get result "success" = Ok success ∧ truthy success = true
    ∧ json_body (answer (POST req)) = VObj [("success", VBool true); ("data", result)]
    ∧ writes (POST req)
      = [(upload_path cwd now, bytes);
         (config_path cwd now,
          yaml_stringify
            (configData env parseInt (upload_path cwd now)
               (join_all cwd ["data"; "output"]) primaryEmails ccEmails))].
Proof.
  unfold ProcessRoute.POST.
  destruct (formData req) as [data|msg] eqn:Hform.
  2: { unfold ProcessRoute.POST_try, mbind, M_bind, and_then, lift. by rewrite Hform. }
  destruct (JSON_parse (field_text (form_primaryEmails data))) as [ps|msg] eqn:Hp.
  2: { unfold ProcessRoute.POST_try, mbind, M_bind, and_then, lift. by rewrite Hform, Hp. }
  destruct (JSON_parse (field_text (form_ccEmails data))) as [cs|msg] eqn:Hc.
  2: { unfold ProcessRoute.POST_try, mbind, M_bind, and_then, lift.
       by rewrite Hform, Hp, Hc. }
  destruct (form_file data) as [bytes|] eqn:Hfile.
  2: { unfold ProcessRoute.POST_try, mbind, M_bind, and_then, lift.
       by rewrite Hform, Hp, Hc, Hfile. }
  destruct (write_error (upload_path cwd now)) as [e|] eqn:Hw1.
  { unfold ProcessRoute.POST_try, mbind, M_bind, and_then, lift, writeFile.
    rewrite Hform, Hp, Hc, Hfile. fold (upload_path cwd now). by rewrite Hw1. }
  destruct (write_error (config_path cwd now)) as [e|] eqn:Hw2.
  { unfold ProcessRoute.POST_try, mbind, M_bind, and_then, lift, writeFile.
    rewrite Hform, Hp, Hc, Hfile. fold (upload_path cwd now). fold (config_path cwd now).
    by rewrite Hw1, Hw2. }
  rewrite (POST_after_writes req data bytes ps cs) by done.
  destruct (runPythonScript_cases (render (config_path cwd now)))
    as [[Hcode ->] | [Hcode [(result & Hjson & ->) | [_ ->]]]]; simpl; [done | | done].
  destruct (get result "success") as [success|msg] eqn:Hs; simpl; [| done].
  destruct (truthy success) eqn:Ht; simpl.
  - intros _. by exists data, bytes, ps, cs, result, success.
  - by destruct (get result "error") as [err|].
Qed.

(** X15.  Once both files are written, a script that exits with a code
    other than 0, or is killed, is answered 500 with a message that names
    the code and carries its stderr; a script that exits with code 0 but
    prints no JSON is answered 500 with the message [Python script failed].
    In both cases the upload and the configuration stay written. *)
Theorem failed_run_answers req data bytes primaryEmails ccEmails :
  formData req = Ok data →
  form_file data = Some bytes →
  JSON_parse (field_text (form_primaryEmails data)) = Ok primaryEmails →
  JSON_parse (field_text (form_ccEmails data)) = Ok ccEmails →
  write_error (upload_path cwd now) = None →
  write_error (config_path cwd now) = None →
  let p := spawned cwd now spawn in
  (code p ≠ Some 0 →
   answer (POST req)
   = answer_500 ("Python script failed (code " +:+ code_text (code p)
                 +:+ "): " +:+ stderr p))
  ∧ (code p = Some 0 → (∃ msg, JSON_parse (stdout p) = Throw msg) →
     answer (POST req) = answer_500 "Python script failed")
  ∧ (writes (POST req)).*1 = [upload_path cwd now; config_path cwd now].
Proof.
  intros Hform Hfile Hp Hc Hw1 Hw2 p. unfold ProcessRoute.POST.
  rewrite (POST_after_writes req data bytes primaryEmails ccEmails) by done.
  split_and!.
  - intros Hcode.
    destruct (runPythonScript_cases (render (config_path cwd now)))
      as [[_ ->] | [Hzero _]]; [done | by destruct Hcode].
  - intros Hzero [msg Hjson].
    destruct (runPythonScript_cases (render (config_path cwd now)))
      as [[Hcode _] | [_ [(result & Hok & _) | [_ ->]]]].
    + by destruct Hcode.
    + unfold p, spawned in Hjson. congruence.
    + reflexivity.
  - by destruct (script_answer _).
Qed.

(** X16.  The configuration of a run never holds an empty [smtp_server]:
    it is the value of [EMAIL_SMTP_SERVER] whenever that variable is set
    to a non-empty text, and [smtp.office365.com] when it is unset or
    empty. *)
Theorem smtp_server_never_empty filepath outputDir primaryEmails ccEmails :
  ∃ server,
    email_config_field (configData env parseInt filepath outputDir primaryEmails ccEmails)
      "smtp_server" = Ok (VStr server)
    ∧ server ≠ ""
    ∧ (∀ value, env "EMAIL_SMTP_SERVER" = Some value → value ≠ "" → server = value)
    ∧ (env "EMAIL_SMTP_SERVER" = None ∨ env "EMAIL_SMTP_SERVER" = Some "" →
       server = "smtp.office365.com").
Proof.
  exists (env_or env "EMAIL_SMTP_SERVER" "smtp.office365.com").
  split; [reflexivity |]. unfold env_or.
  destruct (env "EMAIL_SMTP_SERVER") as [s|] eqn:He.
  - case_bool_decide as Hs; subst; split_and!; auto.
    + by intros value [= <-].
    + by intros value [= <-].
    + intros [? | [= ->]]; done.
  - split_and!; auto. done.
Qed.
End Route.

Lemma failed_run_answers_witness :
  answer (POST ["srv"] (λ _, None) "2024-01-15T10:30:00.000Z" sample_parse to_string
            (λ _, VNum 587) (λ _, None) (λ _, Exited (Some 0) "Traceback" "")
            sample_request)
  = answer_500 "Python script failed".
Proof.
  destruct (failed_run_answers ["srv"] (λ _, None) "2024-01-15T10:30:00.000Z"
              sample_parse to_string (λ _, VNum 587) (λ _, None)
              (λ _, Exited (Some 0) "Traceback" "") sample_request sample_form
              "Tactic Start Date,Tactic End Date" (VArr [VStr "ops@example.com"]) (VArr [])
              eq_refl eq_refl eq_refl eq_refl eq_refl eq_refl)
    as (_ & Hnojson & _).
  apply Hnojson; [reflexivity |]. by eexists.
Defined.

Lemma POST_200_means_witness :
  json_body (answer (good_POST sample_request))
    = VObj [("success", VBool true); ("data", VObj [("success", VBool true)])]
  ∧ (writes (good_POST sample_request)).*1
    = [["srv"; "data"; "uploads"; "campaign_report_20240115103000000.csv"];
       ["srv"; "data"; "config"; "config_20240115103000000.yaml"]].
Proof.
  destruct (POST_200_means ["srv"] (λ _, None) "2024-01-15T10:30:00.000Z" engine_parse
              to_string (λ _, VNum 587) (λ _, None)
              (λ _, Exited (Some 0) engine_output_text "") sample_request eq_refl)
    as (data & bytes & ps & cs & result & success & _ & _ & _ & _ & _ & _ & _
        & Hjson & _ & _ & Hbody & Hwrites).
  injection Hjson as <-.
  split; [exact Hbody |]. unfold good_POST. rewrite Hwrites. reflexivity.
Defined.

Lemma POST_400_exactly_witness :
  sample_POST (Request (Ok (Form None (Some "not json") None)))
  = Handled (answer_500 "SyntaxError: Unexpected token") [].
Proof.
  destruct (POST_400_exactly ["srv"] (λ _, None) "2024-01-15T10:30:00.000Z"
              sample_parse to_string (λ _, VNum 587) (λ _, None)
              (λ _, Exited (Some 0) "null" "")
              (Request (Ok (Form None (Some "not json") None))))
    as (_ & _ & Hparse).
  apply (Hparse (Form None (Some "not json") None)); reflexivity.
Defined.

(** A run with [EMAIL_SMTP_SERVER] set. *)
Lemma smtp_server_never_empty_witness :
  ∃ server,
    email_config_field
      (ProcessRoute.configData (λ name, if bool_decide (name = "EMAIL_SMTP_SERVER")
                                        then Some "mail.example.com" else None)
         (λ _, VNum 587) ["srv"; "in.csv"] ["srv"; "out"] (VArr []) (VArr []))
      "smtp_server" = Ok (VStr server)
    ∧ server = "mail.example.com".
Proof.
  destruct (smtp_server_never_empty
              (λ name, if bool_decide (name = "EMAIL_SMTP_SERVER")
                       then Some "mail.example.com" else None)
              (λ _, VNum 587) ["srv"; "in.csv"] ["srv"; "out"] (VArr []) (VArr []))
    as (server & Hfield & _ & Hset & _).
  exists server. split; [exact Hfield |]. by apply Hset.
Defined.

End ProcessRouteMore.

(** ** The command line driver, continued *)

Module ScriptMore.
Import Path Js Script ScriptViews.
Import Samples.

(** A value that gave one property gives every other, possibly [undefined]. *)
Lemma get_again o k k' v : get o k = Ok v → ∃ v', get o k' = Ok v'.
Proof. destruct o; simpl; intros; by eauto. Qed.

(** X17.  Whatever the processor returns or throws, a run of the driver
    either logs its six lines and nothing else, or ends in
    [process.exit(1)] right after a [console.error]: it never ends quietly
    after a failure, never exits with another code, and nothing runs after
    the exit. *)
Theorem main_logs_or_exits cwd now1 now2 process :
  let evs := main cwd now1 now2 process in
  ((length evs = 6%nat ∧ forallb is_log evs = true)
   ∨ (∃ before label arg,
        evs = before ++ [ConsoleError label arg; Exit 1]
        ∧ forallb is_log before = true ∧ (length before ≤ 4)%nat)).
Proof.
  unfold main, main_body, mbind, Run_bind, run_then, eval, console_log,
    console_error, process_exit.
  destruct (process (main_config cwd now1 now2)) as [result|msg]; simpl.
  2: { right. exists [], "Unexpected error:", (VStr msg). split_and!; [done.. | simpl; lia]. }
  destruct (get result "success") as [success|msg]; simpl.
  2: { right. exists [], "Unexpected error:", (VStr msg). split_and!; [done.. | simpl; lia]. }
  destruct (truthy success); simpl.
  2: { destruct (get result "error") as [err|msg]; simpl; right.
       - exists [], "Processing failed:", err. split_and!; [done.. | simpl; lia].
       - exists [], "Unexpected error:", (VStr msg). split_and!; [done.. | simpl; lia]. }
  destruct (get result "campaignCount") as [cc|msg]; simpl.
  2: { right. eexists [_], "Unexpected error:", (VStr msg). simpl. split_and!; [done.. | lia]. }
  destruct (get result "changesDetected") as [cd|msg]; simpl.
  2: { right. eexists [_; _], "Unexpected error:", (VStr msg). simpl.
       split_and!; [done.. | lia]. }
  destruct (get result "reportPaths") as [rp|msg]; simpl.
  2: { right. eexists [_; _; _; _], "Unexpected error:", (VStr msg). simpl.
       split_and!; [done.. | lia]. }
  destruct (get rp "markdown") as [md|msg] eqn:Hmd; simpl.
  2: { right. eexists [_; _; _; _], "Unexpected error:", (VStr msg). simpl.
       split_and!; [done.. | lia]. }
  destruct (get_again rp "markdown" "text" md Hmd) as [txt ->]. simpl.
  by left.
Qed.

End ScriptMore.

(** ** Texts *)

Module JsFacts.
Import Js.

Lemma startsWith_app p rest : startsWith (p +:+ rest) p = true.
Proof.
  induction p as [|c p IH]; [by destruct rest |].
  change (startsWith (String c (p +:+ rest)) (String c p) = true).
  simpl. by rewrite decide_True.
Qed.

Lemma includes_app_r a s sub : includes s sub = true → includes (a +:+ s) sub = true.
Proof.
  intros Hs. induction a as [|c a IH]; [done |].
  change (includes (String c (a +:+ s)) sub = true).
  simpl. rewrite IH. apply orb_true_r.
Qed.

(** A text holds what stands in its middle. *)
Lemma includes_middle a sub b : includes (a +:+ sub +:+ b) sub = true.
Proof.
  apply includes_app_r.
  assert (∀ s, startsWith s sub = true → includes s sub = true) as Hhead.
  { intros s Hs. destruct s as [|c s];
      [change (startsWith "" sub || false = true)
      |change (startsWith (String c s) sub || includes s sub = true)];
      by rewrite Hs. }
  apply Hhead, startsWith_app.
Qed.

Lemma chars_rev_app s acc :
  chars (String.rev_app s acc) = rev_append (chars s) (chars acc).
Proof. revert acc. induction s as [|c s IH]; intros acc; [done | apply IH]. Qed.

Lemma chars_rev s : chars (String.rev s) = reverse (chars s).
Proof. apply chars_rev_app. Qed.

Lemma split_go_pieces sep cur s :
  sep ∉ chars cur → Forall (λ piece, sep ∉ chars piece) (split_go sep cur s).
Proof.
  revert cur. induction s as [|c s IH]; intros cur Hcur; simpl.
  - constructor; [|constructor]. by rewrite chars_rev, elem_of_reverse.
  - case_decide as Hc.
    + constructor; [by rewrite chars_rev, elem_of_reverse |].
      apply IH. apply not_elem_of_nil.
    + apply IH. intros [->|Hin]%elem_of_cons; [done | by apply Hcur].
Qed.

Lemma split_go_nonempty sep cur s : split_go sep cur s ≠ [].
Proof.
  revert cur. induction s as [|c s IH]; intros cur; simpl; [done |].
  case_decide; [done | apply IH].
Qed.

(** What [pop()] gives after [split]: a text without the separator. *)
Lemma last_split sep s : ∃ piece, last (split sep s) = Some piece ∧ sep ∉ chars piece.
Proof.
  pose proof (split_go_pieces sep "" s (not_elem_of_nil _)) as Hall.
  fold (split sep s) in Hall.
  destruct (last (split sep s)) as [piece|] eqn:Hlast.
  - exists piece. split; [done |].
    apply last_Some_elem_of in Hlast. by eapply Forall_forall in Hall.
  - apply last_None in Hlast. by apply split_go_nonempty in Hlast.
Qed.

Lemma string_of_list_app (l1 l2 : list ascii) :
  String.string_of_list_ascii (l1 ++ l2)
  = String.string_of_list_ascii l1 +:+ String.string_of_list_ascii l2.
Proof.
  induction l1 as [|c l1 IH]; [done |].
  simpl. rewrite IH. done.
Qed.

Lemma append_assoc (a b c : string) : (a +:+ b) +:+ c = a +:+ (b +:+ c).
Proof.
  induction a as [|x a IH]; [done |].
  change (String x ((a +:+ b) +:+ c) = String x (a +:+ (b +:+ c))). by rewrite IH.
Qed.

(** The text of a path ends in a slash and its last component. *)
Lemma render_snoc base name :
  ∃ front, Path.render (base ++ [name]) = front +:+ String Path.slash name.
Proof.
  assert (∀ acc, foldr (λ seg acc, "/" +:+ seg +:+ acc) acc base
                 = foldr (λ seg acc, "/" +:+ seg +:+ acc) "" base +:+ acc) as Hacc.
  { induction base as [|seg base IH]; intros acc; [done |].
    simpl. rewrite IH. by rewrite !append_assoc. }
  exists (foldr (λ seg acc, "/" +:+ seg +:+ acc) "" base).
  unfold Path.render. destruct (base ++ [name]) eqn:Hp; [by destruct base |].
  rewrite <- Hp, foldr_app. simpl. rewrite Hacc.
  by rewrite PathFacts.append_empty_r.
Qed.

Lemma last_split_go_snoc sep cur front name :
  sep ∉ chars name →
  last (split_go sep cur (front +:+ String sep name)) = Some name.
Proof.
  intros Hname. revert cur. induction front as [|c front IH]; intros cur.
  - change (last (split_go sep cur (String sep name)) = Some name). simpl.
    rewrite decide_True by done.
    fold (split sep name). by rewrite PathFacts.split_no_sep.
  - change (last (split_go sep cur (String c (front +:+ String sep name))) = Some name).
    simpl. case_decide; [|apply IH].
    rewrite last_cons, IH. done.
Qed.

End JsFacts.

(** ** The middleware *)

Module MiddlewareFacts.
Import Js Middleware JsFacts.

(** X18.  The middleware lets every request with a content type that
    names [multipart/form-data] through, parameters such as the boundary
    included, and every request to the report route whatever its content
    type; what it lets through carries the three CORS headers.  A request
    under [/api/process] without a content type is answered 400 with no
    CORS header. *)
Theorem middleware_lets_through :
  (∀ path before after,
     middleware (Request path (Some (before +:+ "multipart/form-data" +:+ after)))
     = Next cors_headers)
  ∧ (∀ type filename contentType,
       middleware (Request ("/api/report/" +:+ type +:+ "/" +:+ filename) contentType)
       = Next cors_headers)
  ∧ (∀ rest,
       middleware (Request ("/api/process" +:+ rest) None)
       = Respond 400 "Invalid content type" []).
Proof.
  split_and!.
  - intros path before after. unfold middleware. simpl.
    rewrite includes_middle. simpl. by rewrite andb_false_r.
  - intros type filename contentType. by vm_compute.
  - intros rest. unfold middleware. simpl. by rewrite startsWith_app.
Qed.

End MiddlewareFacts.

(** ** The upload page *)

Module UploadFacts.
Import Js Upload UploadViews JsFacts.
Import MoreSamples.

Lemma get_optional_ok o k : ∃ v, get_optional o k = Ok v.
Proof. destruct o; simpl; eauto. Qed.

Ltac run :=
  unfold try_finally, try_catch, mbind, UI_bind, and_next, emit, await, eval, throw,
    setFile, setProcessing, setProgress, setStatus, setMarkdownContent, setError,
    set, mret, UI_ret, pure; simpl.

Section Page.
Variable JSON_stringify : list string → string.
Variable fetch_process : File → string → string → outcome process_response.
Variable fetch_report : string → outcome report_response.

Lemma show_report_cases result filename data p evs r w' :
  get result "data" = Ok data →
  show_report fetch_report result filename (p, evs) = (r, w') →
  let url := "/api/report/md/" +:+ filename in
  ∃ seen,
    w'.2 = evs ++ FetchReport url :: seen
    ∧ Forall (λ e, is_request e = false) seen
    ∧ match r with
      | Fulfilled _ =>
          ∃ response content,
            w'.1 = shows (progress p) (status p) content p
            ∧ fetch_report url = Fulfilled response ∧ ok response = true
            ∧ text response = Fulfilled content
            ∧ content ≠ "" ∧ trim content ≠ ""
            ∧ Forall (λ e, is_log e = true) seen
      | Rejected err =>
          w'.1 = p
          ∧ (∀ l t, ConsoleErrorText l t ∈ seen →
               ∃ st, err = new_Error ("Failed to fetch report: " +:+ st))
          ∧ (∀ m, fetch_report url = Rejected (ErrorObject "AbortError" m) →
               err = new_Error "Report fetch timed out - please try again")
      end.
Proof.
  intros Hd Hrun url. revert Hrun. unfold show_report. fold url. run. rewrite Hd.
  destruct (get_optional_ok data "campaign_count") as [campaign_count ->].
  destruct (get_optional_ok data "changes_detected") as [changes_detected ->].
  repeat case_match; simplify_eq; intros [= <- <-]; simpl;
    rewrite <- ?app_assoc; simpl; eexists; (split; [reflexivity|]).
  all: (split; [repeat constructor|]).
  all: try (split_and!;
              [done
              |intros l t Hin;
               first [by apply elem_of_nil in Hin
                     |apply list_elem_of_singleton in Hin; eexists; reflexivity]
              |intros m Heq; simplify_eq; done]).
  all: match goal with
       | H : _ || _ = false |- _ =>
           apply orb_false_elim in H as [Hempty Hblank]
       end;
       eexists _, _; split_and!;
         [reflexivity | reflexivity | by destruct (ok _) | done
         |intros ->; done
         |intros Htrim; by rewrite Htrim in Hblank
         |repeat constructor].
Qed.

Lemma attempt_cases chosen primaryEmails ccEmails p evs r w' :
  attempt JSON_stringify fetch_process fetch_report chosen primaryEmails ccEmails (p, evs)
  = (r, w') →
  let sent := FetchProcess chosen (JSON_stringify primaryEmails) (JSON_stringify ccEmails) in
  let asked name := FetchReport ("/api/report/md/" +:+ name) in
  ∃ seen,
    w'.2 = evs ++ seen
    ∧ match r with
      | Fulfilled _ =>
          ∃ name rest response content,
            size chosen ≤ size_limit
            ∧ seen = sent :: asked name :: rest
            ∧ Forall (λ e, is_log e = true) rest
            ∧ name ≠ "" ∧ ¬ Path.slash ∈ chars name
            ∧ w'.1 = shows 100 Success content p
            ∧ fetch_report ("/api/report/md/" +:+ name) = Fulfilled response
            ∧ ok response = true ∧ text response = Fulfilled content
            ∧ content ≠ "" ∧ trim content ≠ ""
            ∧ (∃ answer, fetch_process chosen (JSON_stringify primaryEmails)
                           (JSON_stringify ccEmails) = Fulfilled answer)
      | Rejected err =>
          (∃ n, w'.1 = shows n (status p) (markdownContent p) p)
          ∧ ((size_limit < size chosen ∧ seen = []
              ∧ err = new_Error "File size exceeds 50MB limit")
             ∨ (size chosen ≤ size_limit ∧ seen = [sent]
                ∧ ∀ m, fetch_process chosen (JSON_stringify primaryEmails)
                         (JSON_stringify ccEmails)
                       = Rejected (ErrorObject "AbortError" m) →
                       err = ErrorObject "AbortError" m)
             ∨ (size chosen ≤ size_limit
                ∧ ∃ name rest,
                    seen = sent :: asked name :: rest
                    ∧ Forall (λ e, is_request e = false) rest
                    ∧ name ≠ "" ∧ ¬ Path.slash ∈ chars name
                    ∧ (∃ answer, fetch_process chosen (JSON_stringify primaryEmails)
                                   (JSON_stringify ccEmails) = Fulfilled answer)
                    ∧ (∀ l t, ConsoleErrorText l t ∈ rest →
                         ∃ st, err = new_Error ("Failed to fetch report: " +:+ st))
                    ∧ (∀ m, fetch_report ("/api/report/md/" +:+ name)
                            = Rejected (ErrorObject "AbortError" m) →
                            err = new_Error "Report fetch timed out - please try again")))
      end.
Proof.
  intros Hrun sent asked. revert Hrun. unfold attempt. run.
  repeat case_match; simplify_eq/=; intros [= <- <-]; simpl.
  all: try match goal with
       | H : show_report _ _ _ _ = _, Hd : get _ "data" = Ok _ |- _ =>
           apply (show_report_cases _ _ _ _ _ _ _ Hd) in H as (rest & Hrest & Hnot & Hres)
       end.
  all: repeat match goal with
       | H : bool_decide _ = true |- _ => apply bool_decide_eq_true in H
       | H : bool_decide _ = false |- _ => apply bool_decide_eq_false in H
       | H : negb _ = true |- _ => apply negb_true_iff in H
       | H : negb _ = false |- _ => apply negb_false_iff in H
       end.
  all: try (exists []; rewrite app_nil_r; split; [done |]; split; [by eexists |];
            left; split_and!; [lia | done | done]).
  all: try (exists [sent]; split; [done |]; split; [by eexists |];
            right; left; split_and!; [lia | done | intros m Heq; congruence]).
  all: match goal with
       | H : split_slash ?v = Ok _ |- _ => destruct v; simplify_eq/=
       end.
  all: match goal with
       | H : context [last (split Path.slash ?s)] |- _ =>
           destruct (last_split Path.slash s) as (piece & Hlast & Hslash);
           rewrite Hlast in *; simpl in *
       end.
  all: match goal with
       | |- context [?w.2] => destruct w as [shown seen']; simpl in *; subst seen'
       end.
  - destruct Hres as (response & content & -> & Hfetch & Hok & Htext & Hfull & Htrim & Hlogs).
    exists (sent :: asked piece :: rest). split; [by rewrite <- app_assoc |].
    exists piece, rest, response, content. split_and!; try done; [lia | by eexists].
  - destruct Hres as (-> & Hfailed & Habort).
    exists (sent :: asked piece :: rest). split; [by rewrite <- app_assoc |].
    split; [by eexists |]. right; right. split; [lia |].
    exists piece, rest. split_and!; try done. by eexists.
Qed.

Lemma processReport_cases primaryEmails ccEmails p evs :
  let refusal := "Please select a file and add at least one primary email recipient" in
  let run := processReport JSON_stringify fetch_process fetch_report
               primaryEmails ccEmails (p, evs) in
  ((file p = None ∨ primaryEmails = [])
   ∧ run = (Fulfilled tt,
            (Page (file p) (processing p) (progress p) (status p) (markdownContent p)
               refusal, evs)))
  ∨ ∃ chosen r w',
      file p = Some chosen ∧ primaryEmails ≠ []
      ∧ attempt JSON_stringify fetch_process fetch_report chosen primaryEmails ccEmails
          (Page (file p) true 0 Processing "" (error p), evs) = (r, w')
      ∧ run = (Fulfilled tt,
               match r with
               | Fulfilled _ =>
                   (Page (file w'.1) false (progress w'.1) (status w'.1)
                      (markdownContent w'.1) (error w'.1), w'.2)
               | Rejected err =>
                   (Page (file w'.1) false 0 Error (markdownContent w'.1)
                      (errorMessage err),
                    w'.2 ++ [ConsoleErrorThrown "Error processing report:" err])
               end).
Proof.
  intros refusal run. subst run. unfold processReport. simpl.
  destruct (file p) as [chosen|] eqn:Hfile;
    [|left; split; [by left | run; by rewrite Hfile]].
  case_bool_decide as Hnone; [left; split; [by right | run; by rewrite Hfile] |].
  right. run.
  destruct (attempt _ _ _ _ _ _ _) as [r w'] eqn:Hrun.
  exists chosen, r, w'. split_and!; [done | done | by rewrite <- Hfile |].
  destruct r as [[]|err]; [done |]. unfold recover. run. done.
Qed.


Lemma logs_are_quiet rest :
  Forall (λ e, is_log e = true) rest →
  Forall (λ e, is_request e = false) rest
  ∧ Forall (λ e, is_console_error e = false) rest.
Proof.
  intros Hlogs. split; (eapply Forall_impl; [exact Hlogs |]); by intros [].
Qed.

Lemma requests_quiet rest :
  Forall (λ e, is_request e = false) rest → requests rest = [].
Proof.
  unfold requests. induction 1 as [|e rest He _ IH]; [done |].
  rewrite filter_cons_False; [done | by rewrite He].
Qed.

Lemma requests_two a b rest :
  is_request a = true → is_request b = true →
  Forall (λ e, is_request e = false) rest →
  requests (a :: b :: rest) = [a; b].
Proof.
  intros Ha Hb Hquiet. apply requests_quiet in Hquiet. unfold requests in *.
  rewrite !filter_cons_True by done. by rewrite Hquiet.
Qed.

Lemma requests_snoc l label err :
  requests (l ++ [ConsoleErrorThrown label err]) = requests l.
Proof. unfold requests. rewrite filter_app. apply app_nil_r. Qed.

Lemma errorMessage_hides err : includes (errorMessage err) "Failed to fetch" = false.
Proof.
  destruct err as [error_name message|]; simpl; [|by vm_compute].
  case_bool_decide; [by vm_compute |].
  by destruct (includes message "Failed to fetch") eqn:Hm; [vm_compute |].
Qed.

(** X19.  [processReport] never rejects and leaves the chosen file as it
    is.  It ends in one of three ways.  Refused, without a file or without
    a primary recipient: only the error text is set and nothing is sent or
    logged.  Succeeded: not processing, status success, progress 100, a
    report text that is not blank, no call of [console.error], and the
    error text left as it was before.  Failed: not processing, status
    error, progress 0, the report text empty, the thrown value logged
    last, and its message shown, which never contains [Failed to fetch]. *)
Theorem processReport_settles primaryEmails ccEmails p evs :
  let run := processReport JSON_stringify fetch_process fetch_report
               primaryEmails ccEmails (p, evs) in
  let shown := run.2.1 in
  run.1 = Fulfilled tt
  ∧ file shown = file p
  ∧ ∃ seen,
      run.2.2 = evs ++ seen
      ∧ (((file p = None ∨ primaryEmails = []) ∧ seen = []
          ∧ shown = Page (file p) (processing p) (progress p) (status p)
                      (markdownContent p)
                      "Please select a file and add at least one primary email recipient")
         ∨ (processing shown = false ∧ status shown = Success ∧ progress shown = 100
            ∧ error shown = error p
            ∧ markdownContent shown ≠ "" ∧ trim (markdownContent shown) ≠ ""
            ∧ Forall (λ e, is_console_error e = false) seen)
         ∨ (processing shown = false ∧ status shown = Error ∧ progress shown = 0
            ∧ markdownContent shown = ""
            ∧ includes (error shown) "Failed to fetch" = false
            ∧ ∃ before err,
                seen = before ++ [ConsoleErrorThrown "Error processing report:" err]
                ∧ error shown = errorMessage err)).
Proof.
  intros run shown. subst shown run.
  destruct (processReport_cases primaryEmails ccEmails p evs)
    as [[Hwhy ->]|(chosen & r & w' & Hfile & Hsome & Hrun & ->)]; simpl.
  { split_and!; [done.. |]. exists []. rewrite app_nil_r. split; [done |]. by left. }
  apply attempt_cases in Hrun as (seen & Hseen & Hres).
  destruct w' as [q evs']; simpl in *; subst evs'.
  destruct r as [[]|err]; simpl.
  - destruct Hres as (name & rest & response & content & Hsize & -> & Hlogs & Hname
                      & Hslash & -> & Hfetch & Hok & Htext & Hfull & Htrim & Hsent).
    simpl. split_and!; [done.. |]. eexists. split; [done |]. right; left.
    split_and!; try done. repeat (constructor; [done |]).
    by apply logs_are_quiet.
  - destruct Hres as ([n ->] & Hres). simpl. split_and!; [done.. |].
    eexists. split; [by rewrite <- app_assoc |]. right; right.
    split_and!; try done; [apply errorMessage_hides | by eexists _, _].
Qed.

Lemma requests_shape primaryEmails ccEmails p evs :
  let run := processReport JSON_stringify fetch_process fetch_report
               primaryEmails ccEmails (p, evs) in
  ∃ seen,
    run.2.2 = evs ++ seen
    ∧ (requests seen = []
       ∨ ∃ chosen,
           file p = Some chosen ∧ primaryEmails ≠ [] ∧ size chosen ≤ size_limit
           ∧ let sent := FetchProcess chosen (JSON_stringify primaryEmails)
                           (JSON_stringify ccEmails) in
             (requests seen = [sent]
              ∨ ∃ name,
                  requests seen = [sent; FetchReport ("/api/report/md/" +:+ name)]
                  ∧ name ≠ "" ∧ ¬ Path.slash ∈ chars name
                  ∧ ∃ answer, fetch_process chosen (JSON_stringify primaryEmails)
                                (JSON_stringify ccEmails) = Fulfilled answer)).
Proof.
  intros run. subst run.
  destruct (processReport_cases primaryEmails ccEmails p evs)
    as [[Hwhy ->]|(chosen & r & w' & Hfile & Hsome & Hrun & ->)]; simpl.
  { exists []. rewrite app_nil_r. split; [done |]. by left. }
  apply attempt_cases in Hrun as (seen & Hseen & Hres).
  destruct w' as [q evs']; simpl in *; subst evs'.
  destruct r as [[]|err]; simpl.
  - destruct Hres as (name & rest & response & content & Hsize & -> & Hlogs & Hname
                      & Hslash & -> & Hfetch & Hok & Htext & Hfull & Htrim & Hsent).
    eexists. split; [done |]. right. exists chosen. split_and!; [done.. |].
    right. exists name. split_and!; [|done..].
    apply logs_are_quiet in Hlogs as [Hquiet _]. by apply requests_two.
  - destruct Hres as (_ & [(Hsize & -> & _)|[(Hsize & -> & _)|(Hsize & Hres)]]).
    + eexists. split; [by rewrite <- app_assoc |]. by left.
    + eexists. split; [by rewrite <- app_assoc |]. right. exists chosen.
      split_and!; [done.. |]. by left.
    + destruct Hres as (name & rest & -> & Hquiet & Hname & Hslash & Hsent & _).
      eexists. split; [by rewrite <- app_assoc |]. right. exists chosen.
      split_and!; [done.. |]. right. exists name. split_and!; [|done..].
      rewrite requests_snoc. by apply requests_two.
Qed.


Lemma elem_of_requests e evs : e ∈ evs → is_request e = true → e ∈ requests evs.
Proof. intros Hin He. unfold requests. by apply list_elem_of_filter. Qed.

(** X20.  A run of [processReport] makes no request, or one upload, or
    one upload and then one report request.  The upload carries the chosen
    file, of at most 50 MB, and the two recipient lists as [JSON.stringify]
    gives them, the primary list not empty.  The report is asked for only
    after the upload was answered, under [/api/report/md/] followed by a
    non-empty name without [/]. *)
Theorem requests_of_a_run primaryEmails ccEmails p :
  let run := processReport JSON_stringify fetch_process fetch_report
               primaryEmails ccEmails (p, []) in
  requests run.2.2 = []
  ∨ ∃ chosen,
      file p = Some chosen ∧ primaryEmails ≠ [] ∧ size chosen ≤ size_limit
      ∧ let sent := FetchProcess chosen (JSON_stringify primaryEmails)
                      (JSON_stringify ccEmails) in
        (requests run.2.2 = [sent]
         ∨ ∃ name,
             requests run.2.2 = [sent; FetchReport ("/api/report/md/" +:+ name)]
             ∧ name ≠ "" ∧ ¬ Path.slash ∈ chars name
             ∧ ∃ answer, fetch_process chosen (JSON_stringify primaryEmails)
                           (JSON_stringify ccEmails) = Fulfilled answer).
Proof.
  intros run.
  destruct (requests_shape primaryEmails ccEmails p []) as (seen & Hseen & Hshape).
  fold run in Hseen. by rewrite Hseen.
Qed.

(** What a request among the events of a run tells. *)
Lemma request_seen primaryEmails ccEmails p e :
  let run := processReport JSON_stringify fetch_process fetch_report
               primaryEmails ccEmails (p, []) in
  e ∈ run.2.2 → is_request e = true →
  ∃ chosen,
    file p = Some chosen ∧ primaryEmails ≠ [] ∧ size chosen ≤ size_limit
    ∧ let sent := FetchProcess chosen (JSON_stringify primaryEmails)
                    (JSON_stringify ccEmails) in
      ((e = sent ∧ requests run.2.2 = [sent])
       ∨ ∃ name,
           (e = sent ∨ e = FetchReport ("/api/report/md/" +:+ name))
           ∧ requests run.2.2 = [sent; FetchReport ("/api/report/md/" +:+ name)]
           ∧ ∃ answer, fetch_process chosen (JSON_stringify primaryEmails)
                         (JSON_stringify ccEmails) = Fulfilled answer).
Proof.
  intros run Hin He. apply elem_of_requests in Hin; [|done].
  destruct (requests_shape primaryEmails ccEmails p []) as (seen & Hseen & Hshape).
  fold run in Hseen. simpl in Hseen. rewrite <- Hseen in Hshape.
  destruct Hshape as [Hnone|(chosen & Hfile & Hsome & Hsize & Hshape)].
  { rewrite Hnone in Hin. by apply elem_of_nil in Hin. }
  exists chosen. split_and!; [done.. |]. simpl in *.
  destruct Hshape as [Hone|(name & Htwo & _ & _ & Hanswer)].
  - left. rewrite Hone in Hin. by apply list_elem_of_singleton in Hin.
  - right. exists name. rewrite Htwo in Hin.
    apply elem_of_cons in Hin as [->|Hin%list_elem_of_singleton]; eauto.
Qed.

(** X21.  Whenever the report route answers with a status that is not ok
    and its text arrives, so that the text is logged, the page ends in
    status error showing the network error message, whatever the status
    text of the answer was. *)
Theorem failed_report_reads_as_network_error primaryEmails ccEmails p label text :
  let run := processReport JSON_stringify fetch_process fetch_report
               primaryEmails ccEmails (p, []) in
  ConsoleErrorText label text ∈ run.2.2 →
  status run.2.1 = Error
  ∧ error run.2.1 = "Network error - please check your connection".
Proof.
  intros run. subst run.
  destruct (processReport_cases primaryEmails ccEmails p [])
    as [[Hwhy ->]|(chosen & r & w' & Hfile & Hsome & Hrun & ->)]; simpl.
  { by intros ?%elem_of_nil. }
  apply attempt_cases in Hrun as (seen & Hseen & Hres).
  destruct w' as [q evs']; simpl in *; subst evs'.
  destruct r as [[]|err]; simpl.
  - destruct Hres as (name & rest & response & content & Hsize & -> & Hlogs & _).
    apply logs_are_quiet in Hlogs as [_ Hquiet].
    intros [?|[?|Hin]%elem_of_cons]%elem_of_cons; [done.. |].
    eapply Forall_forall in Hquiet; [|exact Hin]. done.
  - destruct Hres as (_ & [(Hsize & -> & _)|[(Hsize & -> & _)|(Hsize & Hres)]]).
    + by intros ?%list_elem_of_singleton.
    + intros [?|?%list_elem_of_singleton]%elem_of_cons; done.
    + destruct Hres as (name & rest & -> & Hquiet & Hname & Hslash & Hsent & Hfailed & _).
      intros [Hin|?%list_elem_of_singleton]%elem_of_app; [|done].
      apply elem_of_cons in Hin as [?|[?|Hin]%elem_of_cons]; [done.. |].
      destruct (Hfailed _ _ Hin) as [st ->]. split; [done |].
      unfold errorMessage, new_Error. rewrite bool_decide_false by done.
      change ("Failed to fetch report: " +:+ st)
        with ("" +:+ "Failed to fetch" +:+ (" report: " +:+ st)).
      by rewrite includes_middle.
Qed.

(** X22.  The two timeouts are told apart.  When the upload is aborted
    the page shows [Request timed out - please try again] and no report is
    asked for; when the report request is aborted it shows
    [Report fetch timed out - please try again].  Both end in status
    error. *)
Theorem timeouts_are_told_apart primaryEmails ccEmails p :
  let run := processReport JSON_stringify fetch_process fetch_report
               primaryEmails ccEmails (p, []) in
  (∀ sent a b m,
     FetchProcess sent a b ∈ run.2.2 →
     fetch_process sent a b = Rejected (ErrorObject "AbortError" m) →
     status run.2.1 = Error ∧ error run.2.1 = "Request timed out - please try again"
     ∧ requests run.2.2 = [FetchProcess sent a b])
  ∧ (∀ url m,
       FetchReport url ∈ run.2.2 →
       fetch_report url = Rejected (ErrorObject "AbortError" m) →
       status run.2.1 = Error
       ∧ error run.2.1 = "Report fetch timed out - please try again").
Proof.
  intros run. subst run.
  destruct (processReport_cases primaryEmails ccEmails p [])
    as [[Hwhy ->]|(chosen & r & w' & Hfile & Hsome & Hrun & ->)]; simpl.
  { split; intros; by apply elem_of_nil in H. }
  apply attempt_cases in Hrun as (seen & Hseen & Hres).
  destruct w' as [q evs']; simpl in *; subst evs'.
  destruct r as [[]|err]; simpl.
  - destruct Hres as (name & rest & response & content & Hsize & -> & Hlogs & _ & _ & _
                      & Hfetch & _ & _ & _ & _ & answer & Hanswer).
    apply logs_are_quiet in Hlogs as [Hquiet _].
    split.
    + intros sent a b m [Heq|[?|Hin]%elem_of_cons]%elem_of_cons Haborted; [|done|].
      * simplify_eq. congruence.
      * eapply Forall_forall in Hquiet; [|exact Hin]. done.
    + intros url m [?|[Heq|Hin]%elem_of_cons]%elem_of_cons Haborted; [done| |].
      * simplify_eq. congruence.
      * eapply Forall_forall in Hquiet; [|exact Hin]. done.
  - destruct Hres as (_ & [(Hsize & -> & _)|[(Hsize & -> & Haborts)|(Hsize & Hres)]]).
    + split; intros; by apply list_elem_of_singleton in H.
    + split.
      * intros sent a b m [Heq|?%list_elem_of_singleton]%elem_of_cons Haborted; [|done].
        simplify_eq. rewrite (Haborts _ Haborted). done.
      * intros url m [?|?%list_elem_of_singleton]%elem_of_cons; done.
    + destruct Hres as (name & rest & -> & Hquiet & Hname & Hslash & [answer Hanswer]
                        & _ & Haborts).
      split.
      * intros sent a b m [Hin|?%list_elem_of_singleton]%elem_of_app Haborted; [|done].
        apply elem_of_cons in Hin as [Heq|[?|Hin]%elem_of_cons]; [|done|].
        -- simplify_eq. congruence.
        -- eapply Forall_forall in Hquiet; [|exact Hin]. done.
      * intros url m [Hin|?%list_elem_of_singleton]%elem_of_app Haborted; [|done].
        apply elem_of_cons in Hin as [?|[Heq|Hin]%elem_of_cons]; [done| |].
        -- simplify_eq. by rewrite (Haborts _ Haborted).
        -- eapply Forall_forall in Hquiet; [|exact Hin]. done.
Qed.


(** What [endsWith] decides. *)
Lemma endsWith_app s suffix : endsWith s suffix = true ↔ ∃ stem, s = stem +:+ suffix.
Proof.
  unfold endsWith. rewrite bool_decide_eq_true. split.
  - generalize (length (chars s) - length (chars suffix))%nat. intros n Hdrop.
    exists (String.string_of_list_ascii (take n (chars s))).
    rewrite <- (String.string_of_list_ascii_of_string suffix).
    fold (chars suffix). rewrite <- Hdrop, <- string_of_list_app, take_drop.
    symmetry. apply String.string_of_list_ascii_of_string.
  - intros [stem ->]. rewrite ProcessRouteMore.chars_app, length_app.
    replace (length (chars stem) + length (chars suffix) - length (chars suffix))%nat
      with (length (chars stem)) by lia.
    by rewrite drop_app_length.
Qed.

(** X23.  After [handleFileChange], a run of [processReport] uploads only
    the first file of the selection, and only if its name ends in [.csv];
    the page then was in status ready with no error text. *)
Theorem only_csv_files_are_sent files primaryEmails ccEmails w sent a b :
  let chosen := (handleFileChange files w).2.1 in
  let run := processReport JSON_stringify fetch_process fetch_report
               primaryEmails ccEmails (chosen, []) in
  FetchProcess sent a b ∈ run.2.2 →
  files ≫= head = Some sent
  ∧ (∃ stem, name sent = stem +:+ ".csv")
  ∧ status chosen = Ready ∧ error chosen = "".
Proof.
  intros chosen run Hin.
  apply request_seen in Hin as (f & Hfile & _ & _ & Hsent); [|done].
  assert (f = sent) as ->.
  { destruct Hsent as [[Heq _]|(name & [Heq|Heq] & _)]; by simplify_eq. }
  clear Hsent. subst chosen. revert Hfile. unfold handleFileChange.
  destruct (files ≫= head) as [selectedFile|]; [|by run].
  destruct (endsWith (name selectedFile) ".csv") eqn:Hcsv; [|by run].
  run. intros [= ->]. split_and!; [done | by apply endsWith_app | done..].
Qed.

(** X24.  Where the process button is enabled, a click is never refused:
    the chosen file is uploaded first of all, or, above 50 MB, nothing is
    sent and the page ends in status error showing the size limit. *)
Theorem enabled_button_is_not_refused primaryEmails ccEmails p :
  process_disabled p primaryEmails = false →
  let run := processReport JSON_stringify fetch_process fetch_report
               primaryEmails ccEmails (p, []) in
  ∃ chosen,
    file p = Some chosen
    ∧ ((size chosen ≤ size_limit
        ∧ head run.2.2 = Some (FetchProcess chosen (JSON_stringify primaryEmails)
                                 (JSON_stringify ccEmails)))
       ∨ (size_limit < size chosen
          ∧ run.2.2 = [ConsoleErrorThrown "Error processing report:"
                         (new_Error "File size exceeds 50MB limit")]
          ∧ status run.2.1 = Error
          ∧ error run.2.1 = "File size exceeds 50MB limit")).
Proof.
  intros Henabled run. subst run. unfold process_disabled in Henabled.
  apply orb_false_elim in Henabled as [Henabled Hsome].
  apply orb_false_elim in Henabled as [Hfile _].
  apply negb_false_iff in Hfile. apply bool_decide_eq_true in Hfile.
  destruct Hfile as [chosen Hfile].
  apply bool_decide_eq_false in Hsome.
  destruct (processReport_cases primaryEmails ccEmails p [])
    as [[[Hwhy|Hwhy] _]|(chosen' & r & w' & Hfile' & _ & Hrun & ->)]; [congruence | done |].
  assert (chosen' = chosen) as -> by congruence.
  exists chosen. split; [done |].
  apply attempt_cases in Hrun as (seen & Hseen & Hres).
  destruct w' as [q evs']; simpl in *; subst evs'.
  destruct r as [[]|err]; simpl.
  - destruct Hres as (name & rest & response & content & Hsize & -> & _). by left.
  - destruct Hres as ([n ->] & [(Hsize & -> & ->)|[(Hsize & -> & _)|(Hsize & Hres)]]).
    + right. split_and!; try done.
    + by left.
    + destruct Hres as (name & rest & -> & _). by left.
Qed.

(** What the report route serves for a name it accepts. *)
Lemma GET_serves cwd fs name content :
  includes name ".." = false → ReportRoute.filename_re name = true →
  fs !! Path.join (ReportRoute.outputDir cwd) name = Some content →
  ReportRoute.status (ReportRoute.resp (ReportRoute.GET cwd fs "md" name)) = 200
  ∧ ReportRoute.payload (ReportRoute.resp (ReportRoute.GET cwd fs "md" name))
    = ReportRoute.Content content.
Proof.
  intros Hdots Hre Hfile. unfold ReportRoute.GET.
  rewrite bool_decide_true by (apply elem_of_cons; by left).
  simpl. rewrite Hdots, Hre. simpl.
  assert (fs !! Path.join (ReportRoute.outputDir cwd) name = Some content) as -> by exact Hfile.
  done.
Qed.

(** A report that arrives and is not blank is shown. *)
Lemma show_report_serves result data name response content q evs :
  get result "data" = Ok data →
  fetch_report ("/api/report/md/" +:+ name) = Fulfilled response →
  ok response = true → text response = Fulfilled content →
  content ≠ "" → trim content ≠ "" →
  ∃ logs,
    show_report fetch_report result name (q, evs)
    = (Fulfilled tt, (shows (progress q) (status q) content q,
                      evs ++ FetchReport ("/api/report/md/" +:+ name) :: logs)).
Proof.
  intros Hdata Hfetch Hok Htext Hfull Htrim. unfold show_report. run.
  rewrite Hfetch, Hok. simpl. rewrite Htext.
  rewrite (bool_decide_false (content = "")) by done. simpl.
  destruct (String.length (trim content)) eqn:Hlen.
  { destruct (trim content); [done | discriminate Hlen]. }
  simpl. rewrite Hdata.
  destruct (get_optional_ok data "campaign_count") as [campaign_count ->].
  destruct (get_optional_ok data "changes_detected") as [changes_detected ->].
  destruct (truthy campaign_count), (truthy changes_detected); simpl;
    rewrite <- ?app_assoc; simpl; by eexists.
Qed.

(** X25.  A report comes back to the page that asked for it.  Let the
    upload be answered with success and with a [markdown_path] that is the
    text of a file in the output directory of the report route, under a
    name the route accepts other than the single dot; let the file hold a
    text that is not blank, and let the report request be answered by what
    the route [GET] gives for that name.  Then the page ends in status
    success, progress 100, not processing, showing the text of the file. *)
Theorem report_round_trip cwd fs status_text json_text primaryEmails ccEmails p
    chosen answer result success data name content :
  file p = Some chosen → size chosen ≤ size_limit → primaryEmails ≠ [] →
  fetch_process chosen (JSON_stringify primaryEmails) (JSON_stringify ccEmails)
  = Fulfilled answer →
  json answer = Fulfilled result →
  get result "success" = Ok success → truthy success = true →
  get result "data" = Ok data →
  get_optional data "markdown_path"
  = Ok (VStr (Path.render (Path.join (ReportRoute.outputDir cwd) name))) →
  includes name ".." = false → ReportRoute.filename_re name = true → name ≠ "." →
  fs !! Path.join (ReportRoute.outputDir cwd) name = Some content →
  content ≠ "" → trim content ≠ "" →
  fetch_report ("/api/report/md/" +:+ name)
  = Fulfilled (as_fetched status_text json_text
                 (ReportRoute.resp (ReportRoute.GET cwd fs "md" name))) →
  let run := processReport JSON_stringify fetch_process fetch_report
               primaryEmails ccEmails (p, []) in
  status run.2.1 = Success ∧ progress run.2.1 = 100
  ∧ markdownContent run.2.1 = content ∧ processing run.2.1 = false.
Proof.
  intros Hfile Hsize Hsome Hanswer Hjson Hsuccess Htruthy Hdata Hpath Hdots Hre Hdot
    Hstored Hfull Htrim Hreport run. subst run.
  destruct (ReportRouteFacts.accepted_path (ReportRoute.outputDir cwd) name Hdots Hre)
    as [[? _]|(_ & Hjoin & _)]; [done |].
  destruct (ReportRouteFacts.accepted_is_component name Hdots Hre) as (Hslash & Hname & _).
  destruct (render_snoc (ReportRoute.outputDir cwd) name) as [front Hrender].
  rewrite Hjoin in Hpath. rewrite Hrender in Hpath.
  destruct (GET_serves cwd fs name content Hdots Hre Hstored) as [Hstatus Hpayload].
  unfold processReport. simpl. rewrite Hfile. rewrite bool_decide_false by done.
  run. unfold attempt. run.
  rewrite bool_decide_false by lia. simpl.
  rewrite Hanswer; simpl. rewrite Hjson, Hsuccess; simpl. rewrite Htruthy; simpl.
  rewrite Hdata; simpl. rewrite Hpath; simpl.
  rewrite (bool_decide_false (front +:+ _ = "")) by (by destruct front).
  unfold split. rewrite last_split_go_snoc by done. simpl.
  rewrite (bool_decide_false (name = "")) by done. simpl.
  edestruct (show_report_serves result data name) as [logs ->]; [done | exact Hreport | ..].
  - simpl. rewrite Hstatus. done.
  - simpl. by rewrite Hpayload.
  - done.
  - done.
  - done.
Qed.
End Page.

(** A run against a server whose report route answers 404. *)
Lemma failed_report_reads_as_network_error_witness :
  let run := processReport stringify server_answers report_missing
               ["ops@example.com"] [] (chosen_page, []) in
  status run.2.1 = Error
  ∧ error run.2.1 = "Network error - please check your connection".
Proof.
  apply (failed_report_reads_as_network_error stringify server_answers report_missing
           ["ops@example.com"] [] chosen_page
           "Markdown fetch error:" "Report file not found").
  vm_compute. repeat constructor.
Defined.

(** A run whose upload is aborted, and one whose report request is. *)
Lemma timeouts_are_told_apart_witness :
  error (processReport stringify server_times_out report_served
           ["ops@example.com"] [] (chosen_page, [])).2.1
  = "Request timed out - please try again"
  ∧ error (processReport stringify server_answers report_times_out
             ["ops@example.com"] [] (chosen_page, [])).2.1
    = "Report fetch timed out - please try again".
Proof.
  split.
  - refine (proj1 (proj2 (proj1 (timeouts_are_told_apart stringify server_times_out
             report_served ["ops@example.com"] [] chosen_page)
             campaigns_csv _ _ "The operation was aborted." _ _))).
    + vm_compute. repeat constructor.
    + reflexivity.
  - refine (proj2 (proj2 (timeouts_are_told_apart stringify server_answers
             report_times_out ["ops@example.com"] [] chosen_page)
             _ "The operation was aborted." _ _)).
    + vm_compute. repeat constructor.
    + reflexivity.
Defined.

(** Choosing [campaigns.csv] on a fresh page and processing it. *)
Lemma only_csv_files_are_sent_witness :
  Some [campaigns_csv] ≫= head = Some campaigns_csv
  ∧ (∃ stem, name campaigns_csv = stem +:+ ".csv")
  ∧ status (handleFileChange (Some [campaigns_csv]) (fresh_page, [])).2.1 = Ready
  ∧ error (handleFileChange (Some [campaigns_csv]) (fresh_page, [])).2.1 = "".
Proof.
  apply (only_csv_files_are_sent stringify server_answers report_served
           (Some [campaigns_csv]) ["ops@example.com"] [] (fresh_page, [])
           campaigns_csv (stringify ["ops@example.com"]) (stringify [])).
  vm_compute. repeat constructor.
Defined.

(** A click on the enabled button of a page with a file chosen. *)
Lemma enabled_button_is_not_refused_witness :
  ∃ chosen,
    file chosen_page = Some chosen
    ∧ ((size chosen ≤ size_limit
        ∧ head (processReport stringify server_answers report_served
                  ["ops@example.com"] [] (chosen_page, [])).2.2
          = Some (FetchProcess chosen (stringify ["ops@example.com"]) (stringify [])))
       ∨ (size_limit < size chosen
          ∧ (processReport stringify server_answers report_served
               ["ops@example.com"] [] (chosen_page, [])).2.2
            = [ConsoleErrorThrown "Error processing report:"
                 (new_Error "File size exceeds 50MB limit")]
          ∧ status (processReport stringify server_answers report_served
                      ["ops@example.com"] [] (chosen_page, [])).2.1 = Error
          ∧ error (processReport stringify server_answers report_served
                     ["ops@example.com"] [] (chosen_page, [])).2.1
            = "File size exceeds 50MB limit")).
Proof.
  apply (enabled_button_is_not_refused stringify server_answers report_served
           ["ops@example.com"] [] chosen_page).
  reflexivity.
Defined.

(** The report of the sample answer, served from the sample output
    directory. *)
Lemma report_round_trip_witness :
  status (processReport stringify server_answers report_routed
            ["ops@example.com"] [] (chosen_page, [])).2.1 = Success
  ∧ progress (processReport stringify server_answers report_routed
                ["ops@example.com"] [] (chosen_page, [])).2.1 = 100
  ∧ markdownContent (processReport stringify server_answers report_routed
                       ["ops@example.com"] [] (chosen_page, [])).2.1
    = "# Campaign report"
  ∧ processing (processReport stringify server_answers report_routed
                  ["ops@example.com"] [] (chosen_page, [])).2.1 = false.
Proof.
  apply (report_round_trip stringify server_answers report_routed
           ["srv"] report_fs (λ _, "OK") (λ _ message, message)
           ["ops@example.com"] [] chosen_page campaigns_csv
           {| json := Fulfilled engine_answer |} engine_answer (VBool true)
           (VObj [("markdown_path", VStr "/srv/data/output/report_1705314600000.md");
                  ("campaign_count", VNum 3);
                  ("changes_detected", VNum 0)])
           "report_1705314600000.md" "# Campaign report");
    first [reflexivity | discriminate].
Defined.

End UploadFacts.

(** ** The build scripts *)

Module BuildFacts.
Import Path Js Build.

Lemma prefixes_self (p : path) : p ∈ prefixes p.
Proof.
  induction p as [|c p IH]; simpl; [by apply list_elem_of_singleton |].
  apply elem_of_cons. right. by apply list_elem_of_fmap_2.
Qed.

Lemma commands_app a b : commands (a ++ b) = commands a ++ commands b.
Proof. apply omap_app. Qed.

Lemma made_app a b : made (a ++ b) = made a ++ made b.
Proof. apply omap_app. Qed.

Lemma exited_app a b : exited (a ++ b) = exited a || exited b.
Proof. apply existsb_app. Qed.

Lemma take_subseteq (k : nat) (l : list path) :
  (list_to_set (take k l) : gset path) ⊆ list_to_set l.
Proof.
  intros p Hp. apply elem_of_list_to_set. apply elem_of_list_to_set in Hp.
  rewrite <- (take_drop k l). apply elem_of_app. by left.
Qed.

Section Script.
Variable cwd : path.
Variable mkdir_error : path → option string.
Variable mkdir_reach : path → nat.
Variable exec_error : string → option string.
Variable exec_effect : string → gset path → gset path.

Local Abbreviation ensure := (Build.ensure mkdir_error mkdir_reach).
Local Abbreviation execSync := (Build.execSync exec_error exec_effect).

Lemma ensure_eq d fs evs :
  ensure d (fs, evs)
  = if bool_decide (d ∈ fs) then (Ok tt, (fs, evs))
    else match mkdir_error d with
         | Some message =>
             (Throw message,
              (fs ∪ list_to_set (take (mkdir_reach d) (prefixes d)), evs ++ [Mkdir d]))
         | None => (Ok tt, (fs ∪ list_to_set (prefixes d), evs ++ [Mkdir d]))
         end.
Proof. done. Qed.

Lemma forEach_ensure ds fs evs :
  ∃ r fs' new,
    forEach ensure ds (fs, evs) = (r, (fs', evs ++ new))
    ∧ fs ⊆ fs'
    ∧ fs' ⊆ fs ∪ list_to_set (made new ≫= prefixes)
    ∧ commands new = [] ∧ exited new = false
    ∧ (∀ d, d ∈ made new → d ∈ ds ∧ d ∉ fs)
    ∧ match r with
      | Ok _ =>
          (∀ d, d ∈ ds → d ∈ fs') ∧ fs' = fs ∪ list_to_set (made new ≫= prefixes)
      | Throw message =>
          ∃ d, last new = Some (Mkdir d) ∧ mkdir_error d = Some message
      end.
Proof.
  revert fs evs. induction ds as [|d ds IH]; intros fs evs.
  { exists (Ok tt), fs, []. rewrite app_nil_r. split_and!; try done.
    - apply union_subseteq_l.
    - intros d []%elem_of_nil.
    - intros d []%elem_of_nil.
    - simpl. symmetry. apply (right_id_L ∅ (∪)). }
  change (forEach ensure (d :: ds) (fs, evs))
    with (step_then (ensure d) (λ _, forEach ensure ds) (fs, evs)).
  unfold step_then. rewrite ensure_eq.
  case_bool_decide as Hd.
  - destruct (IH fs evs) as (r & fs' & new & -> & Hsub & Hup & Hcmd & Hexit & Hmade & Hr).
    exists r, fs', new. split_and!; try done.
    + intros d' Hin. destruct (Hmade d' Hin). split; [by apply elem_of_cons; right | done].
    + destruct r; [|done]. destruct Hr as [Hr Hexact]. split; [|done].
      intros d' [->|Hin]%elem_of_cons; [by apply Hsub | by apply Hr].
  - destruct (mkdir_error d) as [message|] eqn:Herr.
    + exists (Throw message), (fs ∪ list_to_set (take (mkdir_reach d) (prefixes d))),
        [Mkdir d].
      split_and!; try done.
      * apply union_subseteq_l.
      * simpl. rewrite app_nil_r. apply union_mono_l, take_subseteq.
      * intros d' ->%list_elem_of_singleton. split; [by apply elem_of_cons; left | done].
      * by exists d.
    + destruct (IH (fs ∪ list_to_set (prefixes d)) (evs ++ [Mkdir d]))
        as (r & fs' & new & -> & Hsub & Hup & Hcmd & Hexit & Hmade & Hr).
      exists r, fs', (Mkdir d :: new). rewrite <- app_assoc. split_and!; try done.
      * etrans; [apply union_subseteq_l | exact Hsub].
      * etrans; [exact Hup |]. simpl. rewrite list_to_set_app_L.
        intros p. rewrite !elem_of_union. tauto.
      * intros d' [->|Hin]%elem_of_cons; [split; [by apply elem_of_cons; left | done] |].
        destruct (Hmade d' Hin) as [? Hnot]. split; [by apply elem_of_cons; right |].
        intros Hold. apply Hnot, elem_of_union. by left.
      * destruct r.
        -- destruct Hr as [Hr Hexact]. split.
           ++ intros d' [->|Hin]%elem_of_cons; [|by apply Hr].
              apply Hsub. apply elem_of_union. right.
              apply elem_of_list_to_set, prefixes_self.
           ++ rewrite Hexact. simpl. rewrite list_to_set_app_L.
              symmetry. apply (assoc_L (∪)).
        -- destruct Hr as (d' & Hlast & Hwhy). exists d'. split; [|done].
           destruct new; [done | by rewrite last_cons, Hlast].
Qed.

Lemma execSync_eq c fs evs :
  execSync c (fs, evs)
  = match exec_error c with
    | Some message => (Throw message, (exec_effect c fs, evs ++ [Exec c]))
    | None => (Ok tt, (exec_effect c fs, evs ++ [Exec c]))
    end.
Proof. done. Qed.

(** The body of the [try] of the second script: [prepared] is the file
    system the commands start from. *)
Lemma body_cases VERCEL fs :
  ∃ r prepared final new,
    (forEach ensure (dirs cwd);;
     if truthy (from_option VStr VUndefined VERCEL) then
       emit (ConsoleLog "Installing Python in Vercel environment...");;
       execSync "python3.11 -m ensurepip";;
       execSync "python3.11 -m pip install --upgrade pip";;
       execSync "python3.11 -m pip install -r requirements.txt"
     else
       emit (ConsoleLog "Installing Python dependencies...");;
       execSync "pip install -r requirements.txt") (fs, [])
    = (r, (final, new))
    ∧ (fs ⊆ prepared
       ∧ prepared ⊆ fs ∪ list_to_set (made new ≫= prefixes)
       ∧ final = foldl (λ s c, exec_effect c s) prepared (commands new)
       ∧ (commands new ≠ [] →
          prepared = fs ∪ list_to_set (made new ≫= prefixes)
          ∧ ∀ d, d ∈ dirs cwd → d ∈ prepared))
    ∧ exited new = false
    ∧ (∀ d, d ∈ made new → d ∈ dirs cwd ∧ d ∉ fs)
    ∧ commands new `prefix_of` plan VERCEL
    ∧ match r with
      | Ok _ =>
          (∀ d, d ∈ dirs cwd → d ∈ prepared)
          ∧ commands new = plan VERCEL
          ∧ Forall (λ c, exec_error c = None) (plan VERCEL)
      | Throw message =>
          (∃ d, last new = Some (Mkdir d) ∧ mkdir_error d = Some message
                ∧ commands new = [])
          ∨ (∃ c, last new = Some (Exec c) ∧ exec_error c = Some message
                  ∧ ∀ d, d ∈ dirs cwd → d ∈ prepared)
      end.
Proof.
  unfold mbind at 1, Step_bind, step_then.
  destruct (forEach_ensure (dirs cwd) fs [])
    as (r & fs' & new & -> & Hsub & Hup & Hcmd & Hexit & Hmade & Hr). simpl.
  destruct r as [[]|message].
  2: { exists (Throw message), fs', fs', new. split_and!; try done.
       - rewrite Hcmd. reflexivity.
       - rewrite Hcmd. apply prefix_nil.
       - left. destruct Hr as (d & Hlast & Hwhy). by exists d. }
  destruct Hr as [Hr Hexact].
  unfold plan. destruct (truthy _).
  all: unfold mbind, Step_bind, step_then, emit; simpl; rewrite ?execSync_eq.
  all: repeat (match goal with
               | |- context [exec_error ?c] =>
                   let H := fresh "Hexec" in
                   destruct (exec_error c) eqn:H; simpl; rewrite ?execSync_eq
               end).
  all: eexists _, fs', _, _; (split; [reflexivity |]).
  all: rewrite ?made_app, ?commands_app, ?exited_app, ?Hcmd, ?Hexit; simpl.
  all: rewrite ?app_nil_r.
  all: split_and!; try done.
  all: try (by intros _; split).
  all: try (by repeat constructor).
  all: try (by eexists).
  all: right; eexists; rewrite last_snoc; done.
Qed.

Lemma last_made new d : last new = Some (Mkdir d) → d ∈ made new.
Proof.
  intros [l ->]%last_Some. rewrite made_app. apply elem_of_app. right.
  by apply list_elem_of_singleton.
Qed.

Lemma build_vercel_eq VERCEL fs :
  build_vercel cwd VERCEL mkdir_error mkdir_reach exec_error exec_effect (fs, [])
  = guarded
      (forEach (ensure) (dirs cwd);;
       if truthy (from_option VStr VUndefined VERCEL) then
         emit (ConsoleLog "Installing Python in Vercel environment...");;
         execSync "python3.11 -m ensurepip";;
         execSync "python3.11 -m pip install --upgrade pip";;
         execSync "python3.11 -m pip install -r requirements.txt"
       else
         emit (ConsoleLog "Installing Python dependencies...");;
         execSync "pip install -r requirements.txt") (fs, []).
Proof. done. Qed.

Lemma build_vercel_directories VERCEL fs :
  let run := build_vercel cwd VERCEL mkdir_error mkdir_reach exec_error exec_effect
               (fs, []) in
  run.1 = Ok tt
  ∧ (∀ d, d ∈ made run.2.2 → d ∈ dirs cwd ∧ d ∉ fs)
  ∧ ∃ prepared,
      fs ⊆ prepared
      ∧ prepared ⊆ fs ∪ list_to_set (made run.2.2 ≫= prefixes)
      ∧ run.2.1 = foldl (λ s c, exec_effect c s) prepared (commands run.2.2)
      ∧ (commands run.2.2 ≠ [] →
         prepared = fs ∪ list_to_set (made run.2.2 ≫= prefixes)
         ∧ ∀ d, d ∈ dirs cwd → d ∈ prepared)
      ∧ ((∀ d, d ∈ dirs cwd → mkdir_error d = None) → commands run.2.2 ≠ []).
Proof.
  intros run. subst run. rewrite build_vercel_eq. unfold guarded.
  destruct (body_cases VERCEL fs)
    as (r & prepared & final & new & -> & (Hsub & Hup & Hfinal & Hran) & Hexit & Hmade
        & Hplan & Hr).
  destruct r as [[]|message]; simpl.
  - destruct Hr as (Hdirs & Hall & _). split_and!; [done.. |]. exists prepared.
    split_and!; [done.. |]. intros _. rewrite Hall. unfold plan. by destruct (truthy _).
  - rewrite made_app, commands_app. simpl. rewrite !app_nil_r.
    split_and!; [done.. |]. exists prepared. split_and!; [done.. |].
    intros Hfine.
    destruct Hr as [(d & Hlast%last_made & Hwhy & _)|(c & [l ->]%last_Some & _)].
    + destruct (Hmade d Hlast) as [Hd _]. rewrite (Hfine d Hd) in Hwhy. done.
    + rewrite commands_app. simpl. by destruct (commands l).
Qed.

Lemma build_vercel_commands VERCEL fs :
  let run := build_vercel cwd VERCEL mkdir_error mkdir_reach exec_error exec_effect (fs, []) in
  (exited run.2.2 = false
   ∧ commands run.2.2 = plan VERCEL
   ∧ Forall (λ c, exec_error c = None) (plan VERCEL))
  ∨ ∃ before message,
      run.2.2 = before ++ [ConsoleError "Error during build:" message; Exit 1]
      ∧ exited before = false
      ∧ commands before `prefix_of` plan VERCEL
      ∧ ((∃ d, last before = Some (Mkdir d) ∧ mkdir_error d = Some message
               ∧ commands before = [])
         ∨ (∃ c, last before = Some (Exec c) ∧ exec_error c = Some message)).
Proof.
  intros run. subst run. rewrite build_vercel_eq. unfold guarded.
  destruct (body_cases VERCEL fs)
    as (r & prepared & final & new & -> & _ & Hexit & Hmade & Hplan & Hr).
  destruct r as [[]|message]; simpl.
  - left. by destruct Hr as (_ & ? & ?).
  - right. exists new, message. split_and!; [done.. |].
    destruct Hr as [(d & ? & ? & ?)|(c & ? & ? & _)]; [left; by exists d | right; by exists c].
Qed.

(** X26.  Either build script returns without throwing and calls
    [mkdirSync] only on data directories that were missing.  The commands
    start from a file system that holds all that was there before and,
    beyond that, only made directories and directories above them; where
    a command runs at all, and where none of the four data directories
    fails to be made, it holds all four.  What is there at the end is what
    the commands that ran, in their order, made of it. *)
Theorem build_makes_missing_directories VERCEL fs script :
  script = build cwd mkdir_error mkdir_reach exec_error exec_effect
  ∨ script = build_vercel cwd VERCEL mkdir_error mkdir_reach exec_error exec_effect →
  let run := script (fs, []) in
  run.1 = Ok tt
  ∧ (∀ d, d ∈ made run.2.2 → d ∈ dirs cwd ∧ d ∉ fs)
  ∧ ∃ prepared,
      fs ⊆ prepared
      ∧ prepared ⊆ fs ∪ list_to_set (made run.2.2 ≫= prefixes)
      ∧ run.2.1 = foldl (λ s c, exec_effect c s) prepared (commands run.2.2)
      ∧ (commands run.2.2 ≠ [] →
         prepared = fs ∪ list_to_set (made run.2.2 ≫= prefixes)
         ∧ ∀ d, d ∈ dirs cwd → d ∈ prepared)
      ∧ ((∀ d, d ∈ dirs cwd → mkdir_error d = None) → commands run.2.2 ≠ []).
Proof.
  intros [-> | ->]; [apply (build_vercel_directories None) | apply build_vercel_directories].
Qed.

(** X27.  Either build script runs its commands in the planned order and
    stops at the first failure: the first script plans the one [pip]
    command, the second the three [python3.11] commands on Vercel and the
    [pip] command elsewhere.  Either all of them ran, none failed and the
    script did not exit; or the script ends by showing the error and
    exiting with code 1, the failed call being the last thing done before,
    a prefix of the plan having run, and no command at all where a
    directory could not be made. *)
Theorem build_stops_at_first_failure VERCEL fs script todo :
  (script = build cwd mkdir_error mkdir_reach exec_error exec_effect ∧ todo = ["pip install -r requirements.txt"])
  ∨ (script = build_vercel cwd VERCEL mkdir_error mkdir_reach exec_error exec_effect ∧ todo = plan VERCEL) →
  let run := script (fs, []) in
  (exited run.2.2 = false
   ∧ commands run.2.2 = todo
   ∧ Forall (λ c, exec_error c = None) todo)
  ∨ ∃ before message,
      run.2.2 = before ++ [ConsoleError "Error during build:" message; Exit 1]
      ∧ exited before = false
      ∧ commands before `prefix_of` todo
      ∧ ((∃ d, last before = Some (Mkdir d) ∧ mkdir_error d = Some message
               ∧ commands before = [])
         ∨ (∃ c, last before = Some (Exec c) ∧ exec_error c = Some message)).
Proof.
  intros [[-> ->] | [-> ->]];
    [apply (build_vercel_commands None) | apply build_vercel_commands].
Qed.

End Script.

(** The first script where a cache stands that [pip] clears away. *)
Lemma build_makes_missing_directories_witness :
  let clears := λ (_ : string) (s : gset path), s ∖ {[ ["tmp"; "cache"] ]} in
  let run := build ["srv"] (λ _, None) (λ _, 0%nat) (λ _, None) clears
               ({[ ["tmp"; "cache"] ]}, []) in
  run.1 = Ok tt
  ∧ (∀ d, d ∈ made run.2.2 → d ∈ dirs ["srv"] ∧ d ∉ ({[ ["tmp"; "cache"] ]} : gset path))
  ∧ ∃ prepared : gset path,
      {[ ["tmp"; "cache"] ]} ⊆ prepared
      ∧ prepared ⊆ {[ ["tmp"; "cache"] ]} ∪ list_to_set (made run.2.2 ≫= prefixes)
      ∧ run.2.1 = foldl (λ s c, clears c s) prepared (commands run.2.2)
      ∧ (commands run.2.2 ≠ [] →
         prepared = {[ ["tmp"; "cache"] ]} ∪ list_to_set (made run.2.2 ≫= prefixes)
         ∧ ∀ d, d ∈ dirs ["srv"] → d ∈ prepared)
      ∧ ((∀ d, d ∈ dirs ["srv"] → (λ _ : path, @None string) d = None) →
         commands run.2.2 ≠ []).
Proof.
  apply (build_makes_missing_directories ["srv"] (λ _, None) (λ _, 0%nat) (λ _, None)
           (λ _ s, s ∖ {[ ["tmp"; "cache"] ]}) None {[ ["tmp"; "cache"] ]}).
  by left.
Defined.

Lemma build_stops_at_first_failure_witness :
  let run := build_vercel ["srv"] (Some "1") (λ _, None) (λ _, 0%nat) (λ _, None)
               (λ _ s, s) (∅, []) in
  (exited run.2.2 = false
   ∧ commands run.2.2 = plan (Some "1")
   ∧ Forall (λ c, (λ _ : string, @None string) c = None) (plan (Some "1")))
  ∨ ∃ before message,
      run.2.2 = before ++ [ConsoleError "Error during build:" message; Exit 1]
      ∧ exited before = false
      ∧ commands before `prefix_of` plan (Some "1")
      ∧ ((∃ d, last before = Some (Mkdir d) ∧ (λ _ : path, @None string) d = Some message
               ∧ commands before = [])
         ∨ (∃ c, last before = Some (Exec c)
                 ∧ (λ _ : string, @None string) c = Some message)).
Proof.
  apply (build_stops_at_first_failure ["srv"] (λ _, None) (λ _, 0%nat) (λ _, None)
           (λ _ s, s) (Some "1") ∅).
  by right.
Defined.

End BuildFacts.
